(** * cwl-tes: the TES task adapter ([cwl_tes/tes.py])

    A shallow embedding of [TESTask]: translation of a CWL job into a TES
    task ([get_container], [create_input], [parse_job_order],
    [parse_listing], [get_inputs], [create_task_msg]) and its life cycle
    ([run], [is_done], [cleanup]).

    Python values are a tagged tree; a [dict] is an association list in
    iteration order (its keys are distinct in Python; a lookup takes the
    first entry), since [parse_job_order] stops at the first value that is
    not a mapping.  Lists that the code mutates in place ([inputs]) are
    threaded as state and survive an exception.  The TES client, the file
    system, the output collector and the engine's callback are oracles of a
    [world]; what [run] does to them is recorded in a trace. *)

From Stdlib Require Import ZArith List String Ascii Bool Lia Arith.
From Stdlib Require DecimalString.
From Stdlib Require Import PrimFloat SpecFloat FloatOps.
Import ListNotations.
Open Scope string_scope.

Set Warnings "-inexact-float,-register-all".

(* ================================================================= *)
(** ** Python values and exceptions *)

Module Py.

(** The exception classes the adapter can meet.  [UnsupportedRequirement]
    derives from [WorkflowException]; every class derives from
    [Exception]. *)
Inductive exn : Type :=
| UnsupportedRequirement (msg : string)
| WorkflowException (msg : string)
| KeyError (key : string)
| TypeError
| ValueError
| AttributeError
| OverflowError
| UnicodeDecodeError
| IOError
| OtherException (msg : string).

(** A fallible expression. *)
Inductive result (A : Type) : Type :=
| Val (a : A)
| Exn (e : exn).
Arguments Val {A} a.
Arguments Exn {A} e.

Definition bind {A B} (r : result A) (k : A -> result B) : result B :=
  match r with Val a => k a | Exn e => Exn e end.

(** A statement over a mutable store [S]: the store is still there when
    the statement raises. *)
Inductive step (S : Type) : Type :=
| Ok (s : S)
| Raise (e : exn) (s : S).
Arguments Ok {S} s.
Arguments Raise {S} e s.

Definition seq {S} (r : step S) (k : S -> step S) : step S :=
  match r with Ok s => k s | Raise e s => Raise e s end.

(** Evaluate a fallible expression inside a statement. *)
Definition eval {A S} (r : result A) (s : S) (k : A -> step S) : step S :=
  match r with Val a => k a | Exn e => Raise e s end.

Definition store_of {S} (r : step S) : S :=
  match r with Ok s => s | Raise _ s => s end.

Inductive pyval : Type :=
| PNone
| PBool (b : bool)
| PInt (z : Z)
| PFloat (f : float)
| PStr (s : string)
| PBytes (s : string)
| PList (l : list pyval)
| PDict (d : list (string * pyval)).

Definition dict : Type := list (string * pyval).

(** Induction over the tree, through lists and mappings. *)
Section pyval_induction.
Variable P : pyval -> Prop.
Hypothesis HNone : P PNone.
Hypothesis HBool : forall b, P (PBool b).
Hypothesis HInt : forall z, P (PInt z).
Hypothesis HFloat : forall f, P (PFloat f).
Hypothesis HStr : forall s, P (PStr s).
Hypothesis HBytes : forall s, P (PBytes s).
Hypothesis HList : forall l, Forall P l -> P (PList l).
Hypothesis HDict : forall d, Forall (fun kv => P (snd kv)) d -> P (PDict d).

Fixpoint pyval_tree_ind (v : pyval) : P v :=
  match v with
  | PNone => HNone
  | PBool b => HBool b
  | PInt z => HInt z
  | PFloat f => HFloat f
  | PStr s => HStr s
  | PBytes s => HBytes s
  | PList l =>
      HList l
        ((fix go (l : list pyval) : Forall P l :=
            match l with
            | [] => Forall_nil _
            | x :: r => Forall_cons _ (pyval_tree_ind x) (go r)
            end) l)
  | PDict d =>
      HDict d
        ((fix go (d : list (string * pyval))
            : Forall (fun kv => P (snd kv)) d :=
            match d with
            | [] => Forall_nil _
            | kv :: r =>
                Forall_cons (P := fun kv => P (snd kv)) kv
                  (pyval_tree_ind (snd kv)) (go r)
            end) d)
  end.
End pyval_induction.

(** [isinstance(v, dict)], [isinstance(v, str)], [v is None]. *)
Definition is_dict (v : pyval) : bool :=
  match v with PDict _ => true | _ => false end.
Definition is_str (v : pyval) : bool :=
  match v with PStr _ => true | _ => false end.
Definition is_None (v : pyval) : bool :=
  match v with PNone => true | _ => false end.

(** [v == "text"] for a text literal. *)
Definition eq_str (v : pyval) (s : string) : bool :=
  match v with PStr t => String.eqb t s | _ => false end.

(** [d.get(k)] as an option, [k in d], [d.get(k, default)], [d[k]]. *)
Fixpoint dict_get (k : string) (d : dict) : option pyval :=
  match d with
  | [] => None
  | (k', v) :: r => if String.eqb k' k then Some v else dict_get k r
  end.

Definition dict_has (k : string) (d : dict) : bool :=
  match dict_get k d with Some _ => true | None => false end.

Definition get_default (k : string) (d : dict) (default : pyval) : pyval :=
  match dict_get k d with Some v => v | None => default end.

Definition subscript (d : dict) (k : string) : result pyval :=
  match dict_get k d with Some v => Val v | None => Exn (KeyError k) end.

(** A value used where text is required. *)
Definition as_text (v : pyval) : result string :=
  match v with PStr s => Val s | _ => Exn TypeError end.

(** [s.upper()] on ASCII letters, for text and for bytes; no other value
    has an [upper]. *)
Definition upper_ascii (c : ascii) : ascii :=
  let n := nat_of_ascii c in
  if (97 <=? n)%nat && (n <=? 122)%nat then ascii_of_nat (n - 32) else c.

Fixpoint upper (s : string) : string :=
  match s with
  | EmptyString => EmptyString
  | String c r => String (upper_ascii c) (upper r)
  end.

Definition upper_of (v : pyval) : result pyval :=
  match v with
  | PStr s => Val (PStr (upper s))
  | PBytes s => Val (PBytes (upper s))
  | _ => Exn AttributeError
  end.

(** ["%s" % i] for an index. *)
Definition decimal (n : nat) : string :=
  DecimalString.NilEmpty.string_of_uint (Nat.to_uint n).

(** [os.path.join(a, b)] and [os.path.basename(p)] (POSIX). *)
Definition starts_with_slash (s : string) : bool :=
  match s with String "/"%char _ => true | _ => false end.

Fixpoint ends_with_slash (s : string) : bool :=
  match s with
  | EmptyString => false
  | String c EmptyString => Ascii.eqb c "/"%char
  | String _ r => ends_with_slash r
  end.

Definition join (a b : string) : string :=
  if starts_with_slash b then b
  else if String.eqb a "" || ends_with_slash a then a ++ b
  else a ++ "/" ++ b.

Fixpoint basename_from (acc s : string) : string :=
  match s with
  | EmptyString => acc
  | String c r =>
      if Ascii.eqb c "/"%char then basename_from "" r
      else basename_from (acc ++ String c "") r
  end.

Definition basename (p : string) : string := basename_from "" p.

(** [int -> float] as Python converts it: to the nearest binary64, ties to
    even, [OverflowError] past the largest finite value. *)
Definition float_of_int (z : Z) : result float :=
  let f := SF2Prim (binary_normalize prec emax z 0 false) in
  if PrimFloat.is_infinity f then Exn OverflowError else Val f.

(** The left operand of [x / 953.674] as a float. *)
Definition as_float (v : pyval) : result float :=
  match v with
  | PFloat f => Val f
  | PInt z => float_of_int z
  | PBool b => Val (if b then 1%float else 0%float)
  | _ => Exn TypeError
  end.

End Py.
Import Py.

Notation "'let?' x ':=' r 'in' k" := (Py.bind r (fun x => k))
  (at level 10, x name, r at level 100, k at level 200).

(* ================================================================= *)
(** ** The TES message records ([tes.Input], [tes.Output], ...) *)

Module Tes.

Record Input : Type := mkInput {
  in_name : string;
  in_description : string;
  in_url : option pyval;
  in_path : pyval;
  in_content : option pyval;
  in_type : string
}.

(** What the constructor of [tes.Input] accepts.  An attribute that holds
    text may also be [None], or be left out; [type] is one of [FILE] and
    [DIRECTORY].  The attributes are checked in the order the class declares
    them: [url], [path], [type], [name], [description], [content].  A name
    and a description are text here. *)
Definition optional_text (v : option pyval) : bool :=
  match v with
  | None | Some PNone | Some (PStr _) => true
  | _ => false
  end.

Definition file_types : list string := ["FILE"; "DIRECTORY"].

Definition is_file_type (t : string) : bool :=
  existsb (String.eqb t) file_types.

(** [tes.Input(name=..., description=..., url=..., path=..., content=...,
    type=...)]: [TypeError] for an attribute that is neither text nor
    [None], [ValueError] for a [type] that is not listed. *)
Definition new_Input (name description : string) (url : option pyval)
    (path : pyval) (content : option pyval) (type : pyval) : result Input :=
  if negb (optional_text url) then Exn TypeError
  else if negb (optional_text (Some path)) then Exn TypeError
  else
    match type with
    | PStr t =>
        if is_file_type t then
          if optional_text content
          then Val (mkInput name description url path content t)
          else Exn TypeError
        else Exn ValueError
    | _ => Exn ValueError
    end.

(** [tes.Output], [tes.Resources], [tes.Executor] and [tes.Task] are
    records of what they are given.  [tes.Output] fills [type] with
    ["FILE"] when it is not given. *)
Record Output : Type := mkOutput {
  out_name : string;
  out_url : option string;
  out_path : pyval;
  out_type : string
}.

Record Resources : Type := mkResources {
  cpu_cores : option pyval;
  ram_gb : option float;
  disk_gb : option float
}.

Record Executor : Type := mkExecutor {
  command : list string;
  image : pyval;
  workdir : string;
  ex_stdout : option string;
  ex_stderr : option string;
  ex_stdin : option string;
  env : list (string * string)
}.

Record Task : Type := mkTask {
  name : string;
  description : pyval;
  executors : list Executor;
  inputs : list Input;
  outputs : list Output;
  resources : Resources;
  tags : list (string * pyval)
}.

End Tes.

(* ================================================================= *)
(** ** The job and its surroundings *)

(** [self.spec]: the tool document, read through [get]. *)
Record tool_spec : Type := mkSpec {
  spec_requirements : option (list dict);
  spec_hints : option (list dict);
  spec_doc : option pyval;
  spec_id : option pyval
}.

Record runtime_context : Type := mkRuntimeContext {
  default_container : option string;
  rm_tmpdir : bool;
  preserve_environment : option (list string);
  preserve_entire_environment : bool
}.

(** The fields of a [TESTask] that [JobBase] and the engine fill in before
    [run] is called. *)
Record job : Type := mkJob {
  job_name : string;
  joborder : dict;
  generatefiles_listing : list dict;
  job_stdin : option string;
  job_stdout : option string;
  job_stderr : option string;
  outdir : string;
  tmpdir : string;
  stagedir : option string;
  command_line : list string;
  environment : list (string * string);
  builder_requirements : list dict;
  spec : tool_spec;
  context : runtime_context
}.

Inductive view : Type := MINIMAL | FULL.

Record task_info : Type := mkTaskInfo {
  ti_state : string;
  ti_logs : pyval
}.

Inductive status : Type := success | permanentFail.

(** A key of the mapping [collect_outputs] returns: text or bytes. *)
Inductive okey : Type := KStr (s : string) | KBytes (b : string).

(** Everything outside the adapter.  [get_task n] answers the [n]-th call
    (from 0) the adapter makes to [client.get_task]. *)
Record world : Type := mkWorld {
  file_uri : string -> string;
  os_environ : list (string * string);
  path_exists : string -> bool;
  fs_write : string -> pyval -> option exn;
  utf8_decode : string -> option string;
  create_task : Tes.Task -> result string;
  get_task : nat -> option string -> view -> result task_info;
  collect_outputs : string -> result (list (okey * pyval));
  output_callback : option dict -> status -> option exn
}.

(* ================================================================= *)
(** ** Job Description Translator and I/O Resolver *)

Definition docker_workdir : string := "/var/spool/cwl".

(** What the resolver mutates: the [inputs] list, and the files written
    into the temporary directory. *)
Record store : Type := mkStore {
  st_inputs : list Tes.Input;
  st_written : list (string * pyval)
}.

Definition append_input (p : Tes.Input) (s : store) : store :=
  mkStore (st_inputs s ++ [p])%list (st_written s).

Definition record_write (loc : string) (c : pyval) (s : store) : store :=
  mkStore (st_inputs s) (st_written s ++ [(loc, c)])%list.

Definition is_DockerRequirement (i : dict) : bool :=
  eq_str (get_default "class" i (PStr "NA")) "DockerRequirement".

Definition is_ResourceRequirement (i : dict) : bool :=
  eq_str (get_default "class" i (PStr "NA")) "ResourceRequirement".

Definition fallback_image : string := "python:2.7".

Definition get_container (j : job) : pyval :=
  let default := PStr fallback_image in
  let container :=
    match default_container (context j) with
    | Some (String c r) => PStr (String c r)
    | _ => default
    end in
  let reqs :=
    (match spec_requirements (spec j) with Some l => l | None => [] end ++
     match spec_hints (spec j) with Some l => l | None => [] end)%list in
  fold_left
    (fun container i =>
       if is_DockerRequirement i
       then get_default "dockerPull" i (get_default "dockerImageId" i default)
       else container)
    reqs container.

Definition create_input (name : string) (d : dict) : result Tes.Input :=
  if dict_has "contents" d then
    let? path := subscript d "path" in
    let? contents := subscript d "contents" in
    let? cls := subscript d "class" in
    let? type := upper_of cls in
    Tes.new_Input name ("cwl_input:" ++ name) None path (Some contents) type
  else
    let? location := subscript d "location" in
    let? path := subscript d "path" in
    let? cls := subscript d "class" in
    let? type := upper_of cls in
    Tes.new_Input name ("cwl_input:" ++ name) (Some location) path None type.

(** The loops of [parse_job_order], each over the recursive call [rec]. *)
Section walks.
Context {St : Type}.
Variable rec : string -> pyval -> St -> step St.

(** [for sk, sv in v.items()]: recurse on mappings, [break] otherwise. *)
Fixpoint walk_items (d : dict) (s : St) : step St :=
  match d with
  | [] => Ok s
  | (sk, sv) :: r =>
      if is_dict sv then seq (rec sk sv s) (walk_items r) else Ok s
  end.

(** [for i in range(len(v))], from index [i]. *)
Fixpoint walk_list (k : string) (i : nat) (l : list pyval) (s : St) : step St :=
  match l with
  | [] => Ok s
  | x :: r =>
      if is_dict x
      then seq (rec (k ++ "[" ++ decimal i ++ "]") x s) (walk_list k (S i) r)
      else Ok s
  end.

(** [f["basename"]]: only a mapping can be subscripted by a key. *)
Definition basename_of (f : pyval) : result string :=
  match f with
  | PDict d => let? b := subscript d "basename" in as_text b
  | _ => Exn TypeError
  end.

(** [for f in fs: self.parse_job_order(f["basename"], f, inputs)]. *)
Fixpoint walk_files (fs : list pyval) (s : St) : step St :=
  match fs with
  | [] => Ok s
  | f :: r => seq (eval (basename_of f) s (fun b => rec b f s)) (walk_files r)
  end.

(** [for f in v["secondaryFiles"]]: a list is walked; text, bytes and
    mappings yield elements that cannot be subscripted by ["basename"];
    nothing else can be iterated. *)
Definition walk_secondary (sf : pyval) (s : St) : step St :=
  match sf with
  | PList fs => walk_files fs s
  | PStr EmptyString | PBytes EmptyString | PDict [] => Ok s
  | _ => Raise TypeError s
  end.

End walks.

(** [if key in d: body(d[key])]. *)
Section if_key.
Context {St : Type}.
Variable key : string.
Variable body : pyval -> St -> step St.

Fixpoint if_key (d : dict) (s : St) : step St :=
  match d with
  | [] => Ok s
  | (k', v) :: r => if String.eqb k' key then body v s else if_key r s
  end.
End if_key.

Definition is_reference (d : dict) : bool :=
  dict_has "location" d && dict_has "path" d && dict_has "class" d.

Fixpoint parse_job_order (k : string) (v : pyval) (s : store) {struct v}
    : step store :=
  match v with
  | PDict d =>
      if is_reference d then
        eval (create_input k d) s (fun p =>
          if_key "secondaryFiles" (walk_secondary parse_job_order) d
            (append_input p s))
      else walk_items parse_job_order d s
  | PList l => walk_list parse_job_order k 0 l s
  | _ => Ok s
  end.

Definition writable_msg : string :=
  "The TES spec does not allow for writable inputs".

(** [file_uri(loc)] starts with [loc.startswith("file://")]: bytes cannot
    be asked for a text prefix ([TypeError]), and no other value has a
    [startswith] ([AttributeError]). *)
Definition file_uri_of (w : world) (loc : pyval) : result string :=
  match loc with
  | PStr l => Val (file_uri w l)
  | PBytes _ => Exn TypeError
  | _ => Exn AttributeError
  end.

(** One turn of the loop of [parse_listing].  The arguments of [tes.Input]
    are evaluated in the order they are written: [item["basename"]],
    [file_uri(loc)], the join of the working directory and the [basename]
    ([TypeError] for a [basename] that is not text), then the class. *)
Definition parse_listing_item (w : world) (j : job) (item : dict) (s : store)
    : step store :=
  if dict_has "writable" item then
    Raise (UnsupportedRequirement writable_msg) s
  else
    let finish (loc : pyval) (s : store) : step store :=
      eval (let? b := subscript item "basename" in
            let? url := file_uri_of w loc in
            let? name := as_text b in
            let? cls := subscript item "class" in
            let? type := upper_of cls in
            Tes.new_Input name
              ("InitialWorkDirRequirement:cwl_input:" ++ name)
              (Some (PStr url)) (PStr (join docker_workdir name)) None type)
        s (fun parameter => Ok (append_input parameter s)) in
    if dict_has "contents" item then
      eval (let? b := subscript item "basename" in as_text b) s (fun name =>
        let loc := join (tmpdir j) name in
        eval (subscript item "contents") s (fun contents =>
          match fs_write w loc contents with
          | Some e => Raise e s
          | None => finish (PStr loc) (record_write loc contents s)
          end))
    else
      eval (subscript item "location") s (fun loc => finish loc s).

Fixpoint parse_listing (w : world) (j : job) (listing : list dict) (s : store)
    : step store :=
  match listing with
  | [] => Ok s
  | item :: r => seq (parse_listing_item w j item s) (parse_listing w j r)
  end.

(** [for k, v in self.joborder.items(): self.parse_job_order(k, v, inputs)]. *)
Fixpoint parse_job_orders (jo : dict) (s : store) : step store :=
  match jo with
  | [] => Ok s
  | (k, v) :: r => seq (parse_job_order k v s) (parse_job_orders r)
  end.

Definition get_inputs (w : world) (j : job) : step store :=
  seq (parse_job_orders (joborder j) (mkStore [] []))
      (parse_listing w j (generatefiles_listing j)).

(** Environment variables: a mapping from names to text. *)
Fixpoint env_has (k : string) (e : list (string * string)) : bool :=
  match e with
  | [] => false
  | (k', _) :: r => String.eqb k' k || env_has k r
  end.

Fixpoint env_set (k v : string) (e : list (string * string))
    : list (string * string) :=
  match e with
  | [] => [(k, v)]
  | (k', v') :: r =>
      if String.eqb k' k then (k, v) :: r else (k', v') :: env_set k v r
  end.

Definition get_envvars (w : world) (j : job) : list (string * string) :=
  let env := environment j in
  let vars_to_preserve :=
    if preserve_entire_environment (context j)
    then Some (map fst (os_environ w))
    else preserve_environment (context j) in
  let env :=
    match vars_to_preserve with
    | Some vars =>
        fold_left
          (fun env kv =>
             if existsb (String.eqb (fst kv)) vars && negb (env_has (fst kv) env)
             then env_set (fst kv) (snd kv) env else env)
          (os_environ w) env
    | None => env
    end in
  env_set "TMPDIR" (tmpdir j) (env_set "HOME" (outdir j) env).

Definition output2url (w : world) (j : job) (path : option string)
    : option string :=
  match path with
  | Some p => Some (file_uri w (join (outdir j) (basename p)))
  | None => None
  end.

Definition output2path (path : option string) : option string :=
  match path with
  | Some p => Some (join docker_workdir p)
  | None => None
  end.

Definition mib_per_gb : float := 953.674%float.

Definition dynamic_msg : string :=
  "cwl-tes does not support dynamic resource requests".

(** The locals the requirements loop of [create_task_msg] updates. *)
Record claim : Type := mkClaim {
  cpus : option pyval;
  ram : option float;
  disk : option float;
  output_parameters : list Tes.Output
}.

Definition unusable (v : pyval) : bool := is_None v || is_str v.

(** The bounds a [ResourceRequirement] selects: the minimum when it is
    given, the maximum otherwise, [None] when neither is. *)
Definition selected_cores (i : dict) : pyval :=
  get_default "coresMin" i (get_default "coresMax" i PNone).
Definition selected_ram (i : dict) : pyval :=
  get_default "ramMin" i (get_default "ramMax" i PNone).
Definition selected_disk (i : dict) : pyval :=
  get_default "outdirMin" i (get_default "outdirMax" i PNone).

(** One turn of [for i in self.builder.requirements]. *)
Definition requirement_step (w : world) (j : job) (i : dict) (c : claim)
    : result claim :=
  if is_ResourceRequirement i then
    let cpus := selected_cores i in
    let ram := selected_ram i in
    let disk := selected_disk i in
    if unusable cpus || unusable ram || unusable disk then
      Exn (UnsupportedRequirement dynamic_msg)
    else
      let? r := as_float ram in
      let? d := as_float disk in
      Val (mkClaim (Some cpus) (Some (r / mib_per_gb)%float)
             (Some (d / mib_per_gb)%float) (output_parameters c))
  else if is_DockerRequirement i then
    match get_default "dockerOutputDirectory" i PNone with
    | PNone => Val c
    | dir =>
        Val (mkClaim (cpus c) (ram c) (disk c)
               (output_parameters c ++
                [Tes.mkOutput "dockerOutputDirectory" (output2url w j (Some ""))
                   dir "DIRECTORY"])%list)
    end
  else Val c.

Fixpoint requirements_loop (w : world) (j : job) (reqs : list dict) (c : claim)
    : result claim :=
  match reqs with
  | [] => Val c
  | i :: r => let? c' := requirement_step w j i c in requirements_loop w j r c'
  end.

(** The descriptors appended before the requirements loop. *)
Definition std_output (w : world) (j : job) (name : string)
    (path : option string) : list Tes.Output :=
  match path with
  | Some p =>
      [Tes.mkOutput name (output2url w j path) (PStr (join docker_workdir p))
         "FILE"]
  | None => []
  end.

Definition workdir_output (w : world) (j : job) : Tes.Output :=
  Tes.mkOutput "workdir" (output2url w j (Some "")) (PStr docker_workdir)
    "DIRECTORY".

Definition initial_outputs (w : world) (j : job) : list Tes.Output :=
  (std_output w j "stdout" (job_stdout j) ++
   std_output w j "stderr" (job_stderr j) ++
   [workdir_output w j])%list.

Definition create_task_msg (w : world) (j : job) : result Tes.Task :=
  match get_inputs w j with
  | Raise e _ => Exn e
  | Ok st =>
      let input_parameters := st_inputs st in
      let container := get_container j in
      let? c := requirements_loop w j (builder_requirements j)
                  (mkClaim None None None (initial_outputs w j)) in
      Val (Tes.mkTask (job_name j)
             (match spec_doc (spec j) with Some d => d | None => PStr "" end)
             [Tes.mkExecutor (command_line j) container docker_workdir
                (output2path (job_stdout j)) (output2path (job_stderr j))
                (job_stdin j) (get_envvars w j)]
             input_parameters
             (output_parameters c)
             (Tes.mkResources (cpus c) (ram c) (disk c))
             [("CWLDocumentId",
               match spec_id (spec j) with Some i => i | None => PNone end)])
  end.

(* ================================================================= *)
(** ** Submission, polling, collection and cleanup *)

(** What the adapter does to its surroundings, in order. *)
Inductive event : Type :=
| EvWriteFile (loc : string) (contents : pyval)
| EvCreateTask (t : Tes.Task)
| EvSleep (lo hi : Z)
| EvGetTask (id : option string) (v : view)
| EvCollect (dir : string)
| EvCallback (outputs : option dict) (st : status)
| EvCleanup (rm : bool)
| EvRmtree (path : string).

(** [self.id], [self.state], [self.outputs], and the number of calls made
    to [client.get_task]. *)
Record handle : Type := mkHandle {
  h_id : option string;
  h_state : string;
  h_outputs : option dict;
  h_calls : nat
}.

Definition terminal_states : list string :=
  ["COMPLETE"; "CANCELED"; "EXECUTOR_ERROR"; "SYSTEM_ERROR"].

Definition is_terminal (s : string) : bool :=
  existsb (String.eqb s) terminal_states.

(** [is_done]: the answer (or the exception of the diagnostic fetch), the
    handle and the events. *)
Definition is_done (w : world) (h : handle)
    : result bool * handle * list event :=
  if is_terminal (h_state h) then
    if negb (String.eqb (h_state h) "COMPLETE") then
      let h' := mkHandle (h_id h) (h_state h) (h_outputs h) (S (h_calls h)) in
      match get_task w (h_calls h) (h_id h) FULL with
      | Val _ => (Val true, h', [EvGetTask (h_id h) FULL])
      | Exn e => (Exn e, h', [EvGetTask (h_id h) FULL])
      end
    else (Val true, h, [])
  else (Val false, h, []).

Definition max_tries : nat := 10.

(** The bounds handed to [random.randint] for attempt [n]:
    [round(0.75 * n**2)] and [round(2.25 * n**2)].  In quarters these are
    [3 n^2] and [9 n^2], never half way between two integers. *)
Definition round_quarters (q : Z) : Z := ((q + 2) / 4)%Z.

Definition sleep_event (current_try : nat) : event :=
  let n := Z.of_nat current_try in
  EvSleep (round_quarters (3 * n * n)) (round_quarters (9 * n * n)).

(** How the [while] loop ended: its condition held or [break] was reached,
    or [is_done] raised. *)
Inductive loop_exit : Type :=
| LoopLeft
| LoopRaised (e : exn).

(** [while not self.is_done(): ...], at most [fuel] evaluations of the
    condition; [None] when the loop is still running after them. *)
Fixpoint poll (fuel : nat) (w : world) (h : handle) (current_try : nat)
    : option (loop_exit * handle * list event) :=
  match fuel with
  | O => None
  | S fuel' =>
      match is_done w h with
      | (Exn e, h1, ev) => Some (LoopRaised e, h1, ev)
      | (Val true, h1, ev) => Some (LoopLeft, h1, ev)
      | (Val false, h1, ev) =>
          let ev := (ev ++ [sleep_event current_try;
                            EvGetTask (h_id h1) MINIMAL])%list in
          let h2 state :=
            mkHandle (h_id h1) state (h_outputs h1) (S (h_calls h1)) in
          match get_task w (h_calls h1) (h_id h1) MINIMAL with
          | Val task =>
              match poll fuel' w (h2 (ti_state task)) current_try with
              | Some (x, h3, ev') => Some (x, h3, (ev ++ ev')%list)
              | None => None
              end
          | Exn _ =>
              if (current_try <=? max_tries)%nat then
                match poll fuel' w (h2 (h_state h1)) (S current_try) with
                | Some (x, h3, ev') => Some (x, h3, (ev ++ ev')%list)
                | None => None
                end
              else Some (LoopLeft, h2 (h_state h1), ev)
          end
      end
  end.

Definition cleanup (w : world) (j : job) (rm : bool) : list event :=
  (EvCleanup rm ::
   match stagedir j with
   | Some (String c r) =>
       if path_exists w (String c r) then [EvRmtree (String c r)] else []
   | _ => []
   end ++
   (if rm then [EvRmtree (tmpdir j)] else []))%list.

(** [cleaned_outputs[k] = v]. *)
Fixpoint dict_set (k : string) (v : pyval) (d : dict) : dict :=
  match d with
  | [] => [(k, v)]
  | (k', v') :: r =>
      if String.eqb k' k then (k, v) :: r else (k', v') :: dict_set k v r
  end.

Definition decode (w : world) (b : string) : result string :=
  match utf8_decode w b with
  | Some s => Val s
  | None => Exn UnicodeDecodeError
  end.

(** The normalising loop.  [self.outputs] is bound to the very mapping the
    loop goes on filling, from its first turn: the state is that mapping
    and whether a turn has completed. *)
Fixpoint clean_outputs (w : world) (outputs : list (okey * pyval))
    (s : dict * bool) : step (dict * bool) :=
  match outputs with
  | [] => Ok s
  | (k, v) :: r =>
      eval (let? k := match k with KBytes b => decode w b | KStr t => Val t end in
            let? v := match v with
                      | PBytes b => let? t := decode w b in Val (PStr t)
                      | _ => Val v
                      end in
            Val (k, v))
        s (fun kv => clean_outputs w r (dict_set (fst kv) (snd kv) (fst s), true))
  end.

Definition outputs_field (s : dict * bool) : option dict :=
  if snd s then Some (fst s) else None.

(** How [run] ended. *)
Inductive outcome : Type :=
| Returned
| Raised (e : exn).

(** Text of an exception, for [WorkflowException(e)]. *)
Definition exn_text (e : exn) : string :=
  match e with
  | UnsupportedRequirement m | WorkflowException m | OtherException m => m
  | KeyError k => k
  | TypeError => "TypeError"
  | ValueError => "ValueError"
  | AttributeError => "AttributeError"
  | OverflowError => "OverflowError"
  | UnicodeDecodeError => "UnicodeDecodeError"
  | IOError => "IOError"
  end.

(** The [try] / [except] / [finally] that ends [run]. *)
Definition collect (w : world) (j : job) (h : handle)
    : outcome * handle * list event :=
  let with_outputs o := mkHandle (h_id h) (h_state h) o (h_calls h) in
  let finally := cleanup w j (rm_tmpdir (context j)) in
  let failed (o : option dict) (ev : list event) :=
    let ev := (ev ++ [EvCallback (Some []) permanentFail])%list in
    match output_callback w (Some []) permanentFail with
    | None => (Returned, with_outputs o, (ev ++ finally)%list)
    | Some e => (Raised e, with_outputs o, (ev ++ finally)%list)
    end in
  let assigned (s : dict * bool) : option dict :=
    match outputs_field s with Some o => Some o | None => h_outputs h end in
  match collect_outputs w (outdir j) with
  | Exn _ => failed (h_outputs h) [EvCollect (outdir j)]
  | Val outputs =>
      match clean_outputs w outputs ([], false) with
      | Raise _ s => failed (assigned s) [EvCollect (outdir j)]
      | Ok s =>
          let o := assigned s in
          let ev := [EvCollect (outdir j); EvCallback o success] in
          match output_callback w o success with
          | None => (Returned, with_outputs o, (ev ++ finally)%list)
          | Some _ => failed o ev
          end
      end
  end.

Definition written_events (s : store) : list event :=
  map (fun lc => EvWriteFile (fst lc) (snd lc)) (st_written s).

Definition initial_handle (id : option string) : handle :=
  mkHandle id "UNKNOWN" None 0.

(** [run], with at most [fuel] evaluations of the loop condition. *)
Definition run (fuel : nat) (w : world) (j : job)
    : option (outcome * handle * list event) :=
  let written := written_events (store_of (get_inputs w j)) in
  match create_task_msg w j with
  | Exn e => Some (Raised e, initial_handle None, written)
  | Val task =>
      let ev := (written ++ [EvCreateTask task])%list in
      match create_task w task with
      | Exn e =>
          Some (Raised (WorkflowException (exn_text e)),
                initial_handle None, ev)
      | Val id =>
          match poll fuel w (initial_handle (Some id)) 1 with
          | None => None
          | Some (LoopRaised e, h, ev') => Some (Raised e, h, (ev ++ ev')%list)
          | Some (LoopLeft, h, ev') =>
              match collect w j h with
              | (x, h', ev'') => Some (x, h', (ev ++ ev' ++ ev'')%list)
              end
          end
      end
  end.

(* ================================================================= *)
(** ** Sample surroundings and jobs *)

Module Samples.

(** A service that accepts the task and answers every poll with
    [state]; collection finds no outputs; nothing fails. *)
Definition service (state : string) : world :=
  mkWorld (fun p => "file://" ++ p) [] (fun _ => true) (fun _ _ => None)
    (fun b => Some b) (fun _ => Val "task-1")
    (fun _ _ _ => Val (mkTaskInfo state PNone))
    (fun _ => Val []) (fun _ _ => None).

Definition with_get_task
    (g : nat -> option string -> view -> result task_info) (w : world)
    : world :=
  mkWorld (file_uri w) (os_environ w) (path_exists w) (fs_write w)
    (utf8_decode w) (create_task w) g (collect_outputs w)
    (output_callback w).

Definition with_collect_outputs
    (c : string -> result (list (okey * pyval))) (w : world) : world :=
  mkWorld (file_uri w) (os_environ w) (path_exists w) (fs_write w)
    (utf8_decode w) (create_task w) (get_task w) c (output_callback w).

Definition with_create_task (c : Tes.Task -> result string) (w : world)
    : world :=
  mkWorld (file_uri w) (os_environ w) (path_exists w) (fs_write w)
    (utf8_decode w) c (get_task w) (collect_outputs w) (output_callback w).

Definition no_spec : tool_spec := mkSpec None None None None.

Definition plain_context : runtime_context :=
  mkRuntimeContext None false None false.

(** [echo hello], no inputs, no requirements. *)
Definition echo : job :=
  mkJob "echo" [] [] None None None "/out" "/tmp/job" (Some "/stage")
    ["echo"; "hello"] [] [] no_spec plain_context.

Definition with_requirements (reqs : list dict) (j : job) : job :=
  mkJob (job_name j) (joborder j) (generatefiles_listing j) (job_stdin j)
    (job_stdout j) (job_stderr j) (outdir j) (tmpdir j) (stagedir j)
    (command_line j) (environment j) reqs (spec j) (context j).

Definition with_listing (l : list dict) (j : job) : job :=
  mkJob (job_name j) (joborder j) l (job_stdin j)
    (job_stdout j) (job_stderr j) (outdir j) (tmpdir j) (stagedir j)
    (command_line j) (environment j) (builder_requirements j) (spec j)
    (context j).

Definition with_spec (sp : tool_spec) (c : runtime_context) (j : job) : job :=
  mkJob (job_name j) (joborder j) (generatefiles_listing j) (job_stdin j)
    (job_stdout j) (job_stderr j) (outdir j) (tmpdir j) (stagedir j)
    (command_line j) (environment j) (builder_requirements j) sp c.

(** [echo hello > out.txt]. *)
Definition echo_to_file : job :=
  mkJob "echo" [] [] None (Some "out.txt") None "/out" "/tmp/job" None
    ["echo"; "hello"] [] [] no_spec plain_context.

(** A tool whose image is built from a [dockerFile], run with
    [--default-container ubuntu:20.04]. *)
Definition built_from_dockerfile : job :=
  with_spec
    (mkSpec (Some [[("class", PStr "DockerRequirement");
                    ("dockerFile", PStr "FROM debian:stable")]])
       None None None)
    (mkRuntimeContext (Some "ubuntu:20.04") false None false) echo.

(** A resource request whose RAM bound is an expression. *)
Definition dynamic_request_of_ram : dict :=
  [("class", PStr "ResourceRequirement"); ("coresMin", PInt 1);
   ("ramMin", PStr "$(inputs.memory)"); ("outdirMin", PInt 1024)].

(** A tool that pulls its image and asks for memory by an expression. *)
Definition dynamic_ram : job :=
  with_requirements
    [[("class", PStr "DockerRequirement"); ("dockerPull", PStr "debian:stable")];
     dynamic_request_of_ram]
    echo.

(** An entry of the generated-files listing for a file staged under
    [/data]. *)
Definition staged (name : string) : dict :=
  [("class", PStr "File"); ("basename", PStr name);
   ("location", PStr ("/data/" ++ name))].

(** A tool that only hints at such a request: the builder holds no
    requirement. *)
Definition hinted_dynamic_ram : job :=
  with_spec (mkSpec None (Some [dynamic_request_of_ram]) None None)
    plain_context echo.

(** A tool that requires it and generates a script, on a host whose
    temporary directory cannot be written to. *)
Definition full_disk : world :=
  mkWorld (fun p => "file://" ++ p) [] (fun _ => true)
    (fun _ _ => Some IOError) (fun b => Some b) (fun _ => Val "task-1")
    (fun _ _ _ => Val (mkTaskInfo "COMPLETE" PNone))
    (fun _ => Val []) (fun _ _ => None).

Definition dynamic_ram_with_script : job :=
  with_requirements [dynamic_request_of_ram]
    (with_listing
       [[("class", PStr "File"); ("basename", PStr "run.sh");
         ("contents", PStr "echo hello")]]
       echo).

(** A tool whose first resource request gives a list as RAM bound, and
    whose second is dynamic. *)
Definition list_ram_then_dynamic_ram : job :=
  with_requirements
    [[("class", PStr "ResourceRequirement"); ("coresMin", PInt 1);
      ("ramMin", PList [PInt 1024]); ("outdirMin", PInt 1024)];
     dynamic_request_of_ram]
    echo.

(** A listing whose second entry is marked [writable: false]. *)
Definition writable_false : job :=
  with_listing [staged "a.txt"; ("writable", PBool false) :: staged "b.txt"]
    echo.

(** A service that answers the first poll with [RUNNING] and every later
    one with [COMPLETE]. *)
Definition running_then_complete : world :=
  with_get_task
    (fun n _ _ =>
       Val (mkTaskInfo (if (n <? 1)%nat then "RUNNING" else "COMPLETE") PNone))
    (service "QUEUED").

(** A service that accepts the task and then cannot be reached. *)
Definition unreachable : world :=
  with_get_task (fun _ _ _ => Exn (OtherException "down")) (service "QUEUED").

(** The events of eleven polls, the attempt counter going from 1 to 11. *)
Definition eleven_polls : list event :=
  flat_map (fun n => [sleep_event n; EvGetTask (Some "task-1") MINIMAL])
    (List.seq 1 11).

(** The trace of a run that ended. *)
Definition trace_of (r : option (outcome * handle * list event)) : list event :=
  match r with Some (_, _, tr) => tr | None => [] end.

Definition with_output_callback
    (c : option dict -> status -> option exn) (w : world) : world :=
  mkWorld (file_uri w) (os_environ w) (path_exists w) (fs_write w)
    (utf8_decode w) (create_task w) (get_task w) (collect_outputs w) c.

(** An engine whose callback raises when it is told of a success. *)
Definition rejecting_success : world :=
  with_output_callback
    (fun _ st =>
       match st with
       | success => Some (OtherException "rejected")
       | permanentFail => None
       end)
    (service "COMPLETE").

(** An engine whose callback always raises, and a collection that fails. *)
Definition rejecting_all : world :=
  with_output_callback (fun _ _ => Some (OtherException "rejected"))
    (with_collect_outputs (fun _ => Exn (WorkflowException "missing output"))
       (service "SYSTEM_ERROR")).

(** A file literal: contents given inline, beside a location. *)
Definition literal : dict :=
  [("class", PStr "File"); ("location", PStr "file:///data/_:1");
   ("path", PStr "/var/lib/cwl/message.txt"); ("contents", PStr "hello")].


(** A host with [PATH] and [LANG] set. *)
Definition host : world :=
  mkWorld (fun p => "file://" ++ p)
    [("PATH", "/usr/bin"); ("LANG", "C.UTF-8")] (fun _ => true)
    (fun _ _ => None) (fun b => Some b) (fun _ => Val "task-1")
    (fun _ _ _ => Val (mkTaskInfo "COMPLETE" PNone))
    (fun _ => Val []) (fun _ _ => None).

(** A job that sets [PATH] and [HOME] and asks for [PATH] and [LANG] to
    be preserved. *)
Definition with_environment : job :=
  mkJob "echo" [] [] None None None "/out" "/tmp/job" (Some "/stage")
    ["echo"; "hello"] [("PATH", "/opt/bin"); ("HOME", "/root")] [] no_spec
    (mkRuntimeContext None false (Some ["PATH"; "LANG"]) false).

Definition file (location path : string) : dict :=
  [("class", PStr "File"); ("location", PStr location); ("path", PStr path)].

Definition a_txt : pyval := PDict (file "file:///data/a.txt" "/data/a.txt").

(** An array of two reads; the second has an index, which has a
    checksum. *)
Definition reads : pyval :=
  PList
    [PDict (file "file:///data/a.bam" "/data/a.bam");
     PDict
       (file "file:///data/b.bam" "/data/b.bam" ++
        [("secondaryFiles",
          PList
            [PDict
               (("basename", PStr "b.bam.bai") ::
                file "file:///data/b.bam.bai" "/data/b.bam.bai" ++
                [("secondaryFiles",
                  PList
                    [PDict
                       (("basename", PStr "b.bam.bai.md5") ::
                        file "file:///data/b.bam.bai.md5"
                          "/data/b.bam.bai.md5")])])])])].

(** A job that reads one file, with a listing of a staged file and a
    script given by its contents. *)
Definition staged_and_generated : job :=
  mkJob "align" [("reads", PDict (file "file:///data/a.bam" "/data/a.bam"))]
    [staged "a.txt";
     [("class", PStr "File"); ("basename", PStr "run.sh");
      ("contents", PStr "echo hello")]]
    None None None "/out" "/tmp/job" (Some "/stage") ["sh"; "run.sh"] [] []
    no_spec plain_context.


(** A tool that requires the image [debian:stable] and hints at
    [alpine:3]. *)
Definition two_images : job :=
  with_spec
    (mkSpec
       (Some [[("class", PStr "DockerRequirement");
               ("dockerPull", PStr "debian:stable")]])
       (Some [[("class", PStr "DockerRequirement");
               ("dockerPull", PStr "alpine:3")]])
       None None)
    plain_context echo.

(** The descriptor of the staged file [a.txt]. *)
Definition a_txt_descriptor : Tes.Input :=
  Tes.mkInput "a.txt" "InitialWorkDirRequirement:cwl_input:a.txt"
    (Some (PStr "file:///data/a.txt")) (PStr "/var/spool/cwl/a.txt") None
    "FILE".

End Samples.

(* ================================================================= *)
(** ** Reading a trace *)

Definition is_cleanup (e : event) : bool :=
  match e with EvCleanup _ => true | _ => false end.

Definition is_callback (e : event) : bool :=
  match e with EvCallback _ _ => true | _ => false end.

Definition is_create (e : event) : bool :=
  match e with EvCreateTask _ => true | _ => false end.

Definition is_get (e : event) : bool :=
  match e with EvGetTask _ _ => true | _ => false end.

Definition is_service_call (e : event) : bool := is_create e || is_get e.

(** The events of the polling loop. *)
Definition is_poll_event (e : event) : bool :=
  match e with EvSleep _ _ | EvGetTask _ _ => true | _ => false end.

Definition is_write (e : event) : bool :=
  match e with EvWriteFile _ _ => true | _ => false end.

Definition count (p : event -> bool) (tr : list event) : nat :=
  List.length (filter p tr).

(** Whether collection, or the normalising loop after it, raises. *)
Definition collection_fails (w : world) (j : job) : bool :=
  match collect_outputs w (outdir j) with
  | Exn _ => true
  | Val outputs =>
      match clean_outputs w outputs ([], false) with
      | Raise _ _ => true
      | Ok _ => false
      end
  end.

(** The [n]-th call to [get_task] is a poll answered with [state]. *)
Definition answers (w : world) (id : string) (n : nat) (state : string) : Prop :=
  exists logs, get_task w n (Some id) MINIMAL = Val (mkTaskInfo state logs).

(* ================================================================= *)
(** ** Reading a requirements list *)

(** The last element that satisfies [p]: the one whose assignment a loop
    over the list leaves in place. *)
Definition find_last {A : Type} (p : A -> bool) (l : list A) : option A :=
  find p (rev l).

(** The requirements [get_container] iterates over. *)
Definition container_requirements (j : job) : list dict :=
  (match spec_requirements (spec j) with Some l => l | None => [] end ++
   match spec_hints (spec j) with Some l => l | None => [] end)%list.

(** The configured default image when there is one, the fallback
    otherwise. *)
Definition default_image (j : job) : pyval :=
  match default_container (context j) with
  | Some (String c r) => PStr (String c r)
  | _ => PStr fallback_image
  end.

(** An explicit image of a [DockerRequirement]: [dockerPull], else
    [dockerImageId]. *)
Definition explicit_image (i : dict) : option pyval :=
  match dict_get "dockerPull" i with
  | Some v => Some v
  | None => dict_get "dockerImageId" i
  end.

(** The resolution order in the specification's words: an explicit image
    of the last [DockerRequirement] overrides the configured default, which
    overrides the fallback. *)
Definition resolved_image (j : job) : pyval :=
  match find_last is_DockerRequirement (container_requirements j) with
  | Some i =>
      match explicit_image i with
      | Some v => v
      | None => default_image j
      end
  | None => default_image j
  end.

(** The descriptor a [DockerRequirement] with an output directory adds. *)
Definition docker_output (w : world) (j : job) (i : dict) : list Tes.Output :=
  if is_DockerRequirement i then
    match get_default "dockerOutputDirectory" i PNone with
    | PNone => []
    | dir =>
        [Tes.mkOutput "dockerOutputDirectory" (output2url w j (Some "")) dir
           "DIRECTORY"]
    end
  else [].

Definition docker_outputs (w : world) (j : job) : list Tes.Output :=
  flat_map (docker_output w j) (builder_requirements j).

(** A bound that converts to a float. *)
Definition numeric (v : pyval) : bool :=
  match as_float v with Val _ => true | Exn _ => false end.

(** A bound as a validated document can carry it: absent, an expression
    (text), or a number. *)
Definition cwl_bound (v : pyval) : bool := is_None v || is_str v || numeric v.

Definition cwl_resources (i : dict) : bool :=
  negb (is_ResourceRequirement i) ||
  (cwl_bound (selected_ram i) && cwl_bound (selected_disk i)).

(** A requirement as a validated document can carry it: the bounds of a
    [ResourceRequirement] are such bounds, and the [dockerOutputDirectory]
    of a [DockerRequirement] is text if it is given ([tes.Output] takes no
    other path). *)
Definition cwl_requirement (i : dict) : bool :=
  cwl_resources i &&
  (negb (is_DockerRequirement i) ||
   is_None (get_default "dockerOutputDirectory" i PNone) ||
   is_str (get_default "dockerOutputDirectory" i PNone)).

(** A [ResourceRequirement] one of whose selected bounds is text. *)
Definition dynamic_request (i : dict) : bool :=
  is_ResourceRequirement i &&
  (is_str (selected_cores i) || is_str (selected_ram i) ||
   is_str (selected_disk i)).


(* ================================================================= *)
(** ** The references of a job-order value, in the specification's words *)

(** The value under [key], handed to [body], or [default] without it. *)
Section with_key.
Context {A : Type}.
Variable key : string.
Variable body : pyval -> A.
Variable default : A.

Fixpoint with_key (d : dict) : A :=
  match d with
  | [] => default
  | (k', v) :: r => if String.eqb k' key then body v else with_key r
  end.
End with_key.

(** Every element of a mapping, a list or a list of secondary files is
    visited; nothing ends a walk early. *)
Section references.
Context {A : Type}.
Variable rec : string -> pyval -> list A.

Fixpoint items_references (d : dict) : list A :=
  match d with
  | [] => []
  | (sk, sv) :: r => (rec sk sv ++ items_references r)%list
  end.

Fixpoint list_references (k : string) (i : nat) (l : list pyval) : list A :=
  match l with
  | [] => []
  | x :: r =>
      (rec (k ++ "[" ++ decimal i ++ "]") x ++ list_references k (S i) r)%list
  end.

Fixpoint files_references (fs : list pyval) : list A :=
  match fs with
  | [] => []
  | f :: r =>
      (match basename_of f with Val b => rec b f | Exn _ => [] end ++
       files_references r)%list
  end.

Definition secondary_references (sf : pyval) : list A :=
  match sf with
  | PList fs => files_references fs
  | _ => []
  end.
End references.

(** The file and directory references of a value, each with the name its
    descriptor gets: a mapping with [location], [path] and [class] is one,
    followed by those of its secondary files; any other mapping is walked
    key by key and a list index by index. *)
Fixpoint leaf_references (k : string) (v : pyval) {struct v}
    : list (string * dict) :=
  match v with
  | PDict d =>
      if is_reference d then
        (k, d) ::
        with_key "secondaryFiles" (secondary_references leaf_references) [] d
      else items_references leaf_references d
  | PList l => list_references leaf_references k 0 l
  | _ => []
  end.

(** What may stand inside a mapping or a list: mappings and lists.  With
    [mappings_only], mappings alone. *)
Definition admissible (mappings_only : bool) (x : pyval) : bool :=
  match x with
  | PDict _ => true
  | PList _ => negb mappings_only
  | _ => false
  end.

Definition has_text_basename (f : pyval) : bool :=
  match basename_of f with Val _ => true | Exn _ => false end.

(** A well-formed reference: its class is [File] or [Directory], its
    location and its path are text, and so are its contents if it has
    any. *)
Definition well_formed_reference (d : dict) : bool :=
  (eq_str (get_default "class" d PNone) "File" ||
   eq_str (get_default "class" d PNone) "Directory") &&
  is_str (get_default "location" d PNone) &&
  is_str (get_default "path" d PNone) &&
  is_str (get_default "contents" d (PStr "")).

(** A value tree whose leaves are well-formed references only: the
    secondary files of a reference are a list of mappings that have a text
    [basename]; mappings and lists hold mappings and lists. *)
Fixpoint references_only (mappings_only : bool) (v : pyval) {struct v} : bool :=
  match v with
  | PDict d =>
      if is_reference d then
        well_formed_reference d &&
        with_key "secondaryFiles"
          (fun sf =>
             match sf with
             | PList fs =>
                 forallb
                   (fun f =>
                      has_text_basename f && references_only mappings_only f)
                   fs
             | _ => false
             end)
          true d
      else
        forallb
          (fun kv =>
             admissible mappings_only (snd kv) &&
             references_only mappings_only (snd kv))
          d
  | PList l =>
      forallb
        (fun x => admissible mappings_only x && references_only mappings_only x)
        l
  | _ => true
  end.

(** The descriptors of a list of references. *)
Definition descriptors (refs : list (string * dict)) : list (result Tes.Input) :=
  map (fun kd => create_input (fst kd) (snd kd)) refs.

(** The references of a whole job order. *)
Fixpoint job_order_references (jo : dict) : list (string * dict) :=
  match jo with
  | [] => []
  | (k, v) :: r => (leaf_references k v ++ job_order_references r)%list
  end.


(** The store with [ins] appended to its inputs. *)
Definition grown (s : store) (ins : list Tes.Input) : store :=
  mkStore (st_inputs s ++ ins)%list (st_written s).

(** What the walk does to a value: it appends the descriptors of the
    value's references, one each and in order. *)
Definition resolved (v : pyval) : Prop :=
  forall k s,
    references_only true v = true ->
    exists ins,
      parse_job_order k v s = Ok (grown s ins) /\
      descriptors (leaf_references k v) = map Val ins.

(* ================================================================= *)
(** ** Reading environments, handles and descriptors *)

(** [env[k]], when it is there. *)
Fixpoint env_get (k : string) (e : list (string * string)) : option string :=
  match e with
  | [] => None
  | (k', v) :: r => if String.eqb k' k then Some v else env_get k r
  end.

(** The names [get_envvars] takes over from the host: those of
    [os.environ] when the whole environment is preserved, the listed ones
    otherwise, none when nothing is listed. *)
Definition vars_to_preserve (w : world) (j : job) : option (list string) :=
  if preserve_entire_environment (context j)
  then Some (map fst (os_environ w))
  else preserve_environment (context j).

Definition is_full_fetch (e : event) : bool :=
  match e with EvGetTask _ FULL => true | _ => false end.

Definition is_poll (e : event) : bool :=
  match e with EvGetTask _ MINIMAL => true | _ => false end.

Definition is_sleep (e : event) : bool :=
  match e with EvSleep _ _ => true | _ => false end.

(** One turn of the loop body: the sleep before attempt [current_try],
    and at once the poll. *)
Definition poll_round (id : option string) (current_try : nat) : list event :=
  [sleep_event current_try; EvGetTask id MINIMAL].

(** A terminal state that is not [COMPLETE]. *)
Definition is_failure (state : string) : bool :=
  is_terminal state && negb (String.eqb state "COMPLETE").

Definition is_bytes (v : pyval) : bool :=
  match v with PBytes _ => true | _ => false end.

(** A descriptor has exactly one source, a url or inline content, and the
    description [parse_job_order] gives it. *)
Definition job_order_descriptor (p : Tes.Input) : Prop :=
  Tes.in_description p = "cwl_input:" ++ Tes.in_name p /\
  (Tes.in_url p = None <-> Tes.in_content p <> None).

(** A descriptor of the listing stands for an entry: it has the entry's
    [basename], lands under the working directory, and is fetched from the
    copy written to the temporary directory when the entry has [contents],
    from the entry's location otherwise. *)
Definition listing_descriptor (w : world) (j : job) (p : Tes.Input)
    (item : dict) : Prop :=
  dict_get "basename" item = Some (PStr (Tes.in_name p)) /\
  Tes.in_description p =
    "InitialWorkDirRequirement:cwl_input:" ++ Tes.in_name p /\
  Tes.in_path p = PStr (join docker_workdir (Tes.in_name p)) /\
  Tes.in_content p = None /\
  Tes.in_url p =
    Some (PStr (file_uri w
                  (if dict_has "contents" item
                   then join (tmpdir j) (Tes.in_name p)
                   else match dict_get "location" item with
                        | Some (PStr loc) => loc
                        | _ => ""
                        end))).

(** The files [parse_listing] writes for a listing: one for each entry
    with [contents], under its [basename] in the temporary directory. *)
Fixpoint listing_writes (j : job) (listing : list dict)
    : list (string * pyval) :=
  match listing with
  | [] => []
  | item :: r =>
      match dict_get "contents" item, dict_get "basename" item with
      | Some c, Some (PStr b) => (join (tmpdir j) b, c) :: listing_writes j r
      | _, _ => listing_writes j r
      end
  end.

(** A [ResourceRequirement] that leaves a bound out or gives it as text. *)
Definition rejected_request (i : dict) : bool :=
  is_ResourceRequirement i &&
  (unusable (selected_cores i) || unusable (selected_ram i) ||
   unusable (selected_disk i)).

(** Text written in ASCII alone. *)
Fixpoint ascii_only (s : string) : bool :=
  match s with
  | EmptyString => true
  | String c r => (nat_of_ascii c <? 128)%nat && ascii_only r
  end.

(** The class of a mapping is written in ASCII, if it is text at all:
    [upper] capitalises such text as [str.upper] does. *)
Definition ascii_class (d : dict) : bool :=
  match dict_get "class" d with
  | Some (PStr c) => ascii_only c
  | _ => true
  end.

Fixpoint no_slash (s : string) : bool :=
  match s with
  | EmptyString => true
  | String c r => negb (Ascii.eqb c "/"%char) && no_slash r
  end.


(** A statement that, whether it returns or raises, leaves the store it
    started from with descriptors of the job order appended. *)
Definition appends (r : step store) (s : store) : Prop :=
  exists ins, store_of r = grown s ins /\ Forall job_order_descriptor ins.


(* ================================================================= *)
(** ** Traces of the polling loop, of collection and of cleanup *)

Lemma count_app p (a b : list event) :
  count p (a ++ b)%list = (count p a + count p b)%nat.
Proof. unfold count. now rewrite filter_app, length_app. Qed.

Lemma count_none p q (tr : list event) :
  Forall (fun e => q e = true) tr ->
  (forall e, q e = true -> p e = false) ->
  count p tr = 0%nat.
Proof.
  intros Hall Hpq. unfold count.
  induction Hall as [|e tr He _ IH]; simpl; [reflexivity|].
  now rewrite (Hpq e He).
Qed.

Lemma Forall_not_In (q : event -> bool) (tr : list event) (e : event) :
  Forall (fun x => q x = true) tr -> q e = false -> ~ In e tr.
Proof.
  intros Hall Hq Hin. rewrite Forall_forall in Hall.
  specialize (Hall e Hin). congruence.
Qed.

Lemma poll_events fuel : forall w h n x h' ev,
  poll fuel w h n = Some (x, h', ev) ->
  Forall (fun e => is_poll_event e = true) ev.
Proof.
  induction fuel as [|fuel IH]; intros w h n x h' ev; simpl; [discriminate|].
  unfold is_done.
  destruct (is_terminal (h_state h)).
  - destruct (negb (String.eqb (h_state h) "COMPLETE")).
    + destruct (get_task w (h_calls h) (h_id h) FULL);
        intros [= <- <- <-]; repeat constructor.
    + intros [= <- <- <-]; constructor.
  - simpl.
    destruct (get_task w (h_calls h) (h_id h) MINIMAL) as [task|e].
    + destruct (poll fuel w _ n) as [[[x1 h1] ev1]|] eqn:Hp; [|discriminate].
      intros [= <- <- <-]. repeat constructor. exact (IH _ _ _ _ _ _ Hp).
    + destruct (n <=? max_tries)%nat.
      * destruct (poll fuel w _ (S n)) as [[[x1 h1] ev1]|] eqn:Hp;
          [|discriminate].
        intros [= <- <- <-]. repeat constructor. exact (IH _ _ _ _ _ _ Hp).
      * intros [= <- <- <-]. repeat constructor.
Qed.

Lemma written_events_are_writes s :
  Forall (fun e => is_write e = true) (written_events s).
Proof.
  unfold written_events. induction (st_written s); simpl; constructor; auto.
Qed.

Lemma cleanup_count w j rm : count is_cleanup (cleanup w j rm) = 1%nat.
Proof.
  unfold cleanup, count. simpl.
  destruct (stagedir j) as [[|c r]|]; simpl;
    try destruct (path_exists w _); destruct rm; reflexivity.
Qed.

Lemma cleanup_no_callback w j rm e :
  In e (cleanup w j rm) -> is_callback e = false /\ is_service_call e = false.
Proof.
  unfold cleanup. intros [<-|Hin]; [now split|].
  apply in_app_or in Hin. destruct Hin as [Hin|Hin].
  - destruct (stagedir j) as [[|c r]|]; simpl in Hin; try tauto.
    destruct (path_exists w _); simpl in Hin; [|tauto].
    destruct Hin as [<-|[]]. now split.
  - destruct rm; simpl in Hin; [|tauto]. destruct Hin as [<-|[]]. now split.
Qed.

(** The shape of what [collect] does: one collection, the callbacks, the
    cleanup.  The callbacks are the failure callback alone when collection
    fails, and start with the success callback otherwise. *)
Lemma collect_trace w j h :
  exists r h' cbs,
    collect w j h =
      (r, h', (EvCollect (outdir j) :: cbs ++
               cleanup w j (rm_tmpdir (context j)))%list) /\
    (if collection_fails w j
     then cbs = [EvCallback (Some []) permanentFail]
     else exists o, cbs = [EvCallback o success] \/
                    cbs = [EvCallback o success;
                           EvCallback (Some []) permanentFail]).
Proof.
  unfold collect, collection_fails.
  destruct (collect_outputs w (outdir j)) as [outputs|e].
  - destruct (clean_outputs w outputs ([], false)) as [s|e s].
    + destruct (output_callback w _ success) eqn:Hs.
      * destruct (output_callback w (Some []) permanentFail);
          (eexists _, _, [EvCallback _ success;
                          EvCallback (Some []) permanentFail];
           split; [reflexivity|]; eexists; right; reflexivity).
      * eexists _, _, [EvCallback _ success].
        split; [reflexivity|]. eexists; left; reflexivity.
    + destruct (output_callback w (Some []) permanentFail);
        (eexists _, _, [EvCallback (Some []) permanentFail];
         split; reflexivity).
  - destruct (output_callback w (Some []) permanentFail);
      (eexists _, _, [EvCallback (Some []) permanentFail];
       split; reflexivity).
Qed.

(** [run] once translation and submission have succeeded and the loop
    has been left. *)
Lemma run_after_loop fuel w j task id h ev :
  create_task_msg w j = Val task ->
  create_task w task = Val id ->
  poll fuel w (initial_handle (Some id)) 1 = Some (LoopLeft, h, ev) ->
  run fuel w j =
    Some (fst (fst (collect w j h)), snd (fst (collect w j h)),
          (written_events (store_of (get_inputs w j)) ++
           [EvCreateTask task] ++ ev ++ snd (collect w j h))%list).
Proof.
  intros Ht Hc Hp. unfold run. rewrite Ht, Hc, Hp.
  destruct (collect w j h) as [[x h'] ev'']. simpl.
  now rewrite <- app_assoc.
Qed.

(** One turn of the loop whose poll is answered. *)
Lemma poll_answered fuel w h n task :
  is_terminal (h_state h) = false ->
  get_task w (h_calls h) (h_id h) MINIMAL = Val task ->
  poll (S fuel) w h n =
    match poll fuel w
            (mkHandle (h_id h) (ti_state task) (h_outputs h) (S (h_calls h))) n
    with
    | Some (x, h', ev) =>
        Some (x, h', sleep_event n :: EvGetTask (h_id h) MINIMAL :: ev)
    | None => None
    end.
Proof.
  intros Ht Hg. simpl. unfold is_done. rewrite Ht, Hg. simpl.
  now destruct (poll fuel w _ n) as [[[x h'] ev]|].
Qed.

(** The loop is left at once in state [COMPLETE], with no fetch. *)
Lemma poll_complete fuel w h n :
  h_state h = "COMPLETE" -> poll (S fuel) w h n = Some (LoopLeft, h, []).
Proof. intros Hs. simpl. unfold is_done. now rewrite Hs. Qed.

(** One turn of the loop whose poll fails: another attempt while
    [current_try] is at most [max_tries], [break] after that. *)
Lemma poll_failed fuel w h n e :
  is_terminal (h_state h) = false ->
  get_task w (h_calls h) (h_id h) MINIMAL = Exn e ->
  poll (S fuel) w h n =
    let h' := mkHandle (h_id h) (h_state h) (h_outputs h) (S (h_calls h)) in
    if (n <=? max_tries)%nat then
      match poll fuel w h' (S n) with
      | Some (x, h'', ev) =>
          Some (x, h'', sleep_event n :: EvGetTask (h_id h) MINIMAL :: ev)
      | None => None
      end
    else Some (LoopLeft, h', [sleep_event n; EvGetTask (h_id h) MINIMAL]).
Proof.
  intros Ht Hg. simpl. unfold is_done. rewrite Ht, Hg. simpl.
  destruct (n <=? max_tries)%nat; [|reflexivity].
  now destruct (poll fuel w _ (S n)) as [[[x h'] ev]|].
Qed.

(** A result of the loop does not depend on the fuel that was left. *)
Lemma poll_more_fuel fuel : forall w h n r k,
  poll fuel w h n = Some r -> poll (fuel + k) w h n = Some r.
Proof.
  induction fuel as [|fuel IH]; intros w h n r k; simpl; [discriminate|].
  destruct (is_done w h) as [[[[]|e] h1] ev]; try (intros H; exact H).
  destruct (get_task w (h_calls h1) (h_id h1) MINIMAL) as [task|e].
  - destruct (poll fuel w _ n) as [[[x h3] ev']|] eqn:Hp; [|discriminate].
    now rewrite (IH _ _ _ _ k Hp).
  - destruct (n <=? max_tries)%nat; [|intros H; exact H].
    destruct (poll fuel w _ (S n)) as [[[x h3] ev']|] eqn:Hp; [|discriminate].
    now rewrite (IH _ _ _ _ k Hp).
Qed.

(** When every poll fails, the loop is left after eleven of them, in the
    state it started in. *)
Lemma poll_retries_exhausted w id fuel :
  (forall n, exists e, get_task w n (Some id) MINIMAL = Exn e) ->
  (11 <= fuel)%nat ->
  exists ev,
    poll fuel w (initial_handle (Some id)) 1 =
      Some (LoopLeft, mkHandle (Some id) "UNKNOWN" None 11, ev) /\
    count is_get ev = 11%nat.
Proof.
  intros Hfail Hfuel.
  replace fuel with (11 + (fuel - 11))%nat by lia.
  eexists. split.
  - apply poll_more_fuel.
    do 11 (let H := fresh in
           let e := fresh in
           match goal with
           | |- context [poll _ _ ?h _] =>
               destruct (Hfail (h_calls h)) as [e H];
               erewrite poll_failed; [|reflexivity|exact H]
           end; cbn [Nat.leb max_tries h_id h_state h_outputs h_calls
                       initial_handle]).
    reflexivity.
  - reflexivity.
Qed.

(** Which callbacks [run] makes once the loop has been left. *)
Lemma callbacks_follow_collection fuel w j task id h ev :
  create_task_msg w j = Val task ->
  create_task w task = Val id ->
  poll fuel w (initial_handle (Some id)) 1 = Some (LoopLeft, h, ev) ->
  exists r h' cbs,
    run fuel w j =
      Some (r, h',
            (written_events (store_of (get_inputs w j)) ++
             [EvCreateTask task] ++ ev ++
             EvCollect (outdir j) :: cbs ++
             cleanup w j (rm_tmpdir (context j)))%list) /\
    (if collection_fails w j
     then cbs = [EvCallback (Some []) permanentFail]
     else exists o, cbs = [EvCallback o success] \/
                    cbs = [EvCallback o success;
                           EvCallback (Some []) permanentFail]).
Proof.
  intros Ht Hc Hp. rewrite (run_after_loop _ _ _ _ _ _ _ Ht Hc Hp).
  destruct (collect_trace w j h) as (r & h' & cbs & Heq & Hcbs).
  rewrite Heq. simpl. now exists r, h', cbs.
Qed.

Lemma In_run_trace (e : event) written task ev dir cbs fin :
  In e (written ++ [EvCreateTask task] ++ ev ++ EvCollect dir :: cbs ++ fin)%list ->
  In e written \/ e = EvCreateTask task \/ In e ev \/ e = EvCollect dir \/
  In e cbs \/ In e fin.
Proof.
  intros H. repeat (apply in_app_or in H; destruct H as [H|H]); auto.
  - destruct H as [<-|[]]; auto.
  - destruct H as [<-|H]; auto.
    apply in_app_or in H. tauto.
Qed.

(* ================================================================= *)
(** ** The outcome reported to the engine *)

(** C1, as stated, does not hold.  A task that ends in [EXECUTOR_ERROR]
    while output collection finds nothing to complain about is reported
    through the success callback; so is a task whose polls all fail, left in
    state [UNKNOWN] after eleven of them. *)
Lemma failed_task_reported_as_success :
  (exists task,
     create_task_msg (Samples.service "EXECUTOR_ERROR") Samples.echo = Val task /\
     run 2 (Samples.service "EXECUTOR_ERROR") Samples.echo =
       Some (Returned, mkHandle (Some "task-1") "EXECUTOR_ERROR" None 2,
             [EvCreateTask task; EvSleep 1 2;
              EvGetTask (Some "task-1") MINIMAL;
              EvGetTask (Some "task-1") FULL; EvCollect "/out";
              EvCallback None success; EvCleanup false; EvRmtree "/stage"])) /\
  (exists tr,
     run 12 (Samples.with_get_task (fun _ _ _ => Exn (OtherException "down"))
               (Samples.service "RUNNING")) Samples.echo =
       Some (Returned, mkHandle (Some "task-1") "UNKNOWN" None 11, tr) /\
     count is_get tr = 11%nat /\
     In (EvCallback None success) tr /\
     ~ In (EvCallback (Some []) permanentFail) tr).
Proof.
  split.
  - eexists. split; reflexivity.
  - eexists. split; [vm_compute; reflexivity|].
    split; [reflexivity|]. split.
    + simpl. do 24 right. left. reflexivity.
    + simpl. intuition discriminate.
Qed.

(** C1, amended.  Whenever the polling loop is left in a state other than
    [COMPLETE] and output collection (or the normalisation of what it
    returned) raises, [run] calls the failure callback, once, with an empty
    mapping and [permanentFail], and never the success callback.  The state
    itself is not consulted. *)
Theorem failure_callback_when_collection_fails fuel w j task id h ev :
  create_task_msg w j = Val task ->
  create_task w task = Val id ->
  poll fuel w (initial_handle (Some id)) 1 = Some (LoopLeft, h, ev) ->
  h_state h <> "COMPLETE" ->
  collection_fails w j = true ->
  exists r h' tr,
    run fuel w j = Some (r, h', tr) /\
    count is_callback tr = 1%nat /\
    In (EvCallback (Some []) permanentFail) tr /\
    (forall o, ~ In (EvCallback o success) tr).
Proof.
  intros Ht Hc Hp _ Hf.
  destruct (callbacks_follow_collection _ _ _ _ _ _ _ Ht Hc Hp)
    as (r & h' & cbs & Hrun & Hcbs).
  rewrite Hf in Hcbs. subst cbs.
  eexists r, h', _. split; [exact Hrun|].
  pose proof (poll_events _ _ _ _ _ _ _ Hp) as Hev.
  pose proof (written_events_are_writes (store_of (get_inputs w j))) as Hw.
  split; [|split].
  - rewrite !count_app.
    rewrite (count_none is_callback is_write _ Hw) by (now intros []).
    rewrite (count_none is_callback is_poll_event _ Hev) by (now intros []).
    change (EvCollect (outdir j) :: ?l)%list
      with ([EvCollect (outdir j)] ++ l)%list.
    rewrite !count_app.
    rewrite (count_none is_callback (fun e => negb (is_callback e))
               (cleanup w j (rm_tmpdir (context j)))).
    + reflexivity.
    + apply Forall_forall. intros e He.
      now destruct (cleanup_no_callback _ _ _ _ He) as [-> _].
    + intros e. now destruct (is_callback e).
  - apply in_or_app. right. apply in_or_app. right. apply in_or_app. right.
    right. left. reflexivity.
  - intros o Hin. apply In_run_trace in Hin.
    destruct Hin as [Hin|[Hin|[Hin|[Hin|[Hin|Hin]]]]]; try discriminate.
    + exact (Forall_not_In is_write _ (EvCallback o success) Hw eq_refl Hin).
    + exact (Forall_not_In is_poll_event _ (EvCallback o success) Hev eq_refl Hin).
    + destruct Hin as [Hin|[]]. discriminate.
    + now destruct (cleanup_no_callback _ _ _ _ Hin).
Qed.

(** A run the amended C1 speaks about: the task ends in [EXECUTOR_ERROR]
    and collection raises. *)
Lemma failure_callback_witness :
  exists r h' tr,
    run 2 (Samples.with_collect_outputs
             (fun _ => Exn (WorkflowException "missing output"))
             (Samples.service "EXECUTOR_ERROR")) Samples.echo =
      Some (r, h', tr) /\
    count is_callback tr = 1%nat /\
    In (EvCallback (Some []) permanentFail) tr /\
    (forall o, ~ In (EvCallback o success) tr).
Proof.
  eapply (failure_callback_when_collection_fails 2).
  - reflexivity.
  - reflexivity.
  - reflexivity.
  - discriminate.
  - reflexivity.
Defined.

(* ================================================================= *)
(** ** Cleanup *)

(** C2, as stated, does not hold.  A listing entry that carries [writable]
    makes translation raise, and a service that refuses the task makes
    submission raise: [run] then raises to its caller, and the trace it
    leaves has no cleanup in it. *)
Lemma no_cleanup_before_polling :
  run 2 (Samples.service "COMPLETE")
    (Samples.with_listing
       [[("class", PStr "File"); ("basename", PStr "a.txt");
         ("location", PStr "/data/a.txt"); ("writable", PBool true)]]
       Samples.echo) =
    Some (Raised (UnsupportedRequirement writable_msg),
          initial_handle None, []) /\
  (exists task,
     create_task_msg (Samples.service "COMPLETE") Samples.echo = Val task /\
     run 2 (Samples.with_create_task
              (fun _ => Exn (OtherException "refused"))
              (Samples.service "COMPLETE")) Samples.echo =
       Some (Raised (WorkflowException "refused"), initial_handle None,
             [EvCreateTask task])).
Proof. split; [reflexivity|]. eexists. split; reflexivity. Qed.

(** C2, amended.  Once translation and submission have succeeded and the
    polling loop has been left, cleanup runs exactly once, as the last thing
    [run] does and after the callback: on success, on a terminal remote
    failure, on a collection failure and after the retries are exhausted.
    When translation or submission raises, [run] raises to its caller and
    no cleanup runs. *)
Theorem cleanup_once_after_polling fuel w j :
  (forall task id h ev,
     create_task_msg w j = Val task ->
     create_task w task = Val id ->
     poll fuel w (initial_handle (Some id)) 1 = Some (LoopLeft, h, ev) ->
     exists r h' pre,
       run fuel w j =
         Some (r, h', (pre ++ cleanup w j (rm_tmpdir (context j)))%list) /\
       count is_cleanup pre = 0%nat /\
       (1 <= count is_callback pre)%nat /\
       count is_cleanup (pre ++ cleanup w j (rm_tmpdir (context j)))%list
         = 1%nat) /\
  (forall e,
     create_task_msg w j = Exn e ->
     exists tr,
       run fuel w j = Some (Raised e, initial_handle None, tr) /\
       count is_cleanup tr = 0%nat) /\
  (forall task e,
     create_task_msg w j = Val task ->
     create_task w task = Exn e ->
     exists tr,
       run fuel w j =
         Some (Raised (WorkflowException (exn_text e)), initial_handle None, tr) /\
       count is_cleanup tr = 0%nat).
Proof.
  pose proof (written_events_are_writes (store_of (get_inputs w j))) as Hw.
  assert (Hw0 : count is_cleanup (written_events (store_of (get_inputs w j)))
                = 0%nat)
    by (apply (count_none is_cleanup is_write _ Hw); now intros []).
  split; [|split].
  - intros task id h ev Ht Hc Hp.
    destruct (callbacks_follow_collection _ _ _ _ _ _ _ Ht Hc Hp)
      as (r & h' & cbs & Hrun & Hcbs).
    pose proof (poll_events _ _ _ _ _ _ _ Hp) as Hev.
    exists r, h',
      (written_events (store_of (get_inputs w j)) ++
       [EvCreateTask task] ++ ev ++ EvCollect (outdir j) :: cbs)%list.
    assert (Hpre : forall p, p (EvCreateTask task) = false ->
                   p (EvCollect (outdir j)) = false ->
                   count p (written_events (store_of (get_inputs w j))) = 0%nat ->
                   count p ev = 0%nat ->
                   count p (written_events (store_of (get_inputs w j)) ++
                            [EvCreateTask task] ++ ev ++
                            EvCollect (outdir j) :: cbs)%list = count p cbs).
    { intros p H1 H2 H3 H4.
      change (EvCollect (outdir j) :: cbs)%list
        with ([EvCollect (outdir j)] ++ cbs)%list.
      rewrite !count_app, H3, H4. unfold count. simpl. now rewrite H1, H2. }
    assert (Hcl : count is_cleanup cbs = 0%nat).
    { destruct (collection_fails w j); [now subst|].
      destruct Hcbs as [o [-> | ->]]; reflexivity. }
    assert (Hcb : (1 <= count is_callback cbs)%nat).
    { destruct (collection_fails w j); [subst; apply Nat.le_refl|].
      destruct Hcbs as [o [-> | ->]]; unfold count; simpl; lia. }
    split; [|split; [|split]].
    + rewrite Hrun, <- !app_assoc. reflexivity.
    + rewrite Hpre; auto.
      apply (count_none is_cleanup is_poll_event _ Hev). now intros [].
    + rewrite Hpre; auto.
      * apply (count_none is_callback is_write _ Hw). now intros [].
      * apply (count_none is_callback is_poll_event _ Hev). now intros [].
    + rewrite count_app, cleanup_count, Hpre; auto.
      * now rewrite Hcl.
      * apply (count_none is_cleanup is_poll_event _ Hev). now intros [].
  - intros e He. unfold run. rewrite He. eexists. split; [reflexivity|].
    exact Hw0.
  - intros task e Ht Hc. unfold run. rewrite Ht, Hc.
    eexists. split; [reflexivity|]. now rewrite count_app, Hw0.
Qed.

(** A run the amended C2 speaks about: the task completes, and the caller
    asked for the temporary directory to be removed. *)
Lemma cleanup_once_witness :
  exists r h' pre,
    run 2 (Samples.service "COMPLETE")
      (Samples.with_spec Samples.no_spec
         (mkRuntimeContext None true None false) Samples.echo) =
      Some (r, h', (pre ++ [EvCleanup true; EvRmtree "/stage";
                            EvRmtree "/tmp/job"])%list) /\
    count is_cleanup pre = 0%nat /\
    (1 <= count is_callback pre)%nat /\
    count is_cleanup
      (pre ++ [EvCleanup true; EvRmtree "/stage"; EvRmtree "/tmp/job"])%list
      = 1%nat.
Proof.
  eapply (proj1 (cleanup_once_after_polling 2 (Samples.service "COMPLETE")
                   (Samples.with_spec Samples.no_spec
                      (mkRuntimeContext None true None false) Samples.echo)));
    reflexivity.
Defined.

(* ================================================================= *)
(** ** The diagnostic fetch *)

(** C3.  The service reports [SYSTEM_ERROR] and then fails to deliver the
    full task: the exception of the diagnostic fetch leaves [is_done] and
    [run]; no callback is made and nothing is cleaned up. *)
Lemma diagnostic_fetch_failure_is_fatal :
  exists task,
    create_task_msg (Samples.service "SYSTEM_ERROR") Samples.echo = Val task /\
    run 2 (Samples.with_get_task
             (fun _ _ v =>
                match v with
                | FULL => Exn (OtherException "logs unavailable")
                | MINIMAL => Val (mkTaskInfo "SYSTEM_ERROR" PNone)
                end)
             (Samples.service "SYSTEM_ERROR")) Samples.echo =
      Some (Raised (OtherException "logs unavailable"),
            mkHandle (Some "task-1") "SYSTEM_ERROR" None 2,
            [EvCreateTask task; EvSleep 1 2;
             EvGetTask (Some "task-1") MINIMAL;
             EvGetTask (Some "task-1") FULL]).
Proof. eexists. split; reflexivity. Qed.

(** In general: when [is_done] raises, [run] raises the same exception
    and has made no callback and no cleanup. *)
Lemma run_when_is_done_raises fuel w j task id h ev e :
  create_task_msg w j = Val task ->
  create_task w task = Val id ->
  poll fuel w (initial_handle (Some id)) 1 = Some (LoopRaised e, h, ev) ->
  exists tr,
    run fuel w j = Some (Raised e, h, tr) /\
    count is_callback tr = 0%nat /\
    count is_cleanup tr = 0%nat.
Proof.
  intros Ht Hc Hp. unfold run. rewrite Ht, Hc, Hp.
  eexists. split; [reflexivity|].
  pose proof (poll_events _ _ _ _ _ _ _ Hp) as Hev.
  pose proof (written_events_are_writes (store_of (get_inputs w j))) as Hw.
  rewrite !count_app.
  rewrite (count_none is_callback is_write _ Hw) by (now intros []).
  rewrite (count_none is_cleanup is_write _ Hw) by (now intros []).
  rewrite (count_none is_callback is_poll_event _ Hev) by (now intros []).
  rewrite (count_none is_cleanup is_poll_event _ Hev) by (now intros []).
  split; reflexivity.
Qed.

(** What the polling loop fetches in full: nothing in state [COMPLETE] and
    in a state that is not terminal, the task once otherwise. *)
Lemma is_done_fetches_once w h :
  count (fun e => match e with EvGetTask _ FULL => true | _ => false end)
    (snd (is_done w h)) =
  if is_terminal (h_state h) && negb (String.eqb (h_state h) "COMPLETE")
  then 1%nat else 0%nat.
Proof.
  unfold is_done. destruct (is_terminal (h_state h)); [|reflexivity].
  destruct (negb (String.eqb (h_state h) "COMPLETE")); [|reflexivity].
  now destruct (get_task w (h_calls h) (h_id h) FULL).
Qed.

(* ================================================================= *)
(** ** Three polls answered [RUNNING], the fourth [COMPLETE] *)

(** C8.  If the job translates, the service accepts it and answers the
    first three polls with [RUNNING] and the fourth with [COMPLETE], and
    collection succeeds, then [run] (given room for five evaluations of the
    loop condition) submits once, polls four times and then calls the
    success callback; no call to the service follows. *)
Theorem running_thrice_then_complete fuel w j task id outputs s :
  create_task_msg w j = Val task ->
  create_task w task = Val id ->
  answers w id 0 "RUNNING" ->
  answers w id 1 "RUNNING" ->
  answers w id 2 "RUNNING" ->
  answers w id 3 "COMPLETE" ->
  collect_outputs w (outdir j) = Val outputs ->
  clean_outputs w outputs ([], false) = Ok s ->
  (5 <= fuel)%nat ->
  exists r h pre o post,
    run fuel w j = Some (r, h, (pre ++ EvCallback o success :: post)%list) /\
    h_state h = "COMPLETE" /\
    count is_create pre = 1%nat /\
    count is_get pre = 4%nat /\
    count is_callback pre = 0%nat /\
    count is_service_call post = 0%nat.
Proof.
  intros Ht Hc [l0 H0] [l1 H1] [l2 H2] [l3 H3] Hco Hcl Hfuel.
  do 5 (destruct fuel as [|fuel]; [lia|]).
  assert (Hp : poll (S (S (S (S (S fuel))))) w (initial_handle (Some id)) 1 =
               Some (LoopLeft, mkHandle (Some id) "COMPLETE" None 4,
                     [sleep_event 1; EvGetTask (Some id) MINIMAL;
                      sleep_event 1; EvGetTask (Some id) MINIMAL;
                      sleep_event 1; EvGetTask (Some id) MINIMAL;
                      sleep_event 1; EvGetTask (Some id) MINIMAL])).
  { erewrite poll_answered; [|reflexivity|exact H0].
    erewrite poll_answered; [|reflexivity|exact H1].
    erewrite poll_answered; [|reflexivity|exact H2].
    erewrite poll_answered; [|reflexivity|exact H3].
    now rewrite poll_complete. }
  destruct (callbacks_follow_collection _ _ _ _ _ _ _ Ht Hc Hp)
    as (r & h' & cbs & Hrun & Hcbs).
  assert (Hh : h' = mkHandle (Some id) "COMPLETE"
                      (match outputs_field s with
                       | Some o => Some o
                       | None => None
                       end) 4).
  { pose proof (run_after_loop _ _ _ _ _ _ _ Ht Hc Hp) as Hrun'.
    rewrite Hrun in Hrun'. injection Hrun' as _ Hh' _. rewrite Hh'.
    unfold collect. rewrite Hco, Hcl. simpl.
    destruct (output_callback w _ success);
      [destruct (output_callback w (Some []) permanentFail)|]; reflexivity. }
  unfold collection_fails in Hcbs. rewrite Hco, Hcl in Hcbs.
  destruct Hcbs as [o Hcbs].
  pose proof (written_events_are_writes (store_of (get_inputs w j))) as Hw.
  exists r, h',
    (written_events (store_of (get_inputs w j)) ++
     [EvCreateTask task] ++
     [sleep_event 1; EvGetTask (Some id) MINIMAL;
      sleep_event 1; EvGetTask (Some id) MINIMAL;
      sleep_event 1; EvGetTask (Some id) MINIMAL;
      sleep_event 1; EvGetTask (Some id) MINIMAL] ++
     [EvCollect (outdir j)])%list, o.
  assert (Hfin : count is_service_call
                   (cleanup w j (rm_tmpdir (context j))) = 0%nat).
  { apply (count_none _ (fun e => negb (is_service_call e))).
    - apply Forall_forall. intros e He.
      now destruct (cleanup_no_callback _ _ _ _ He) as [_ ->].
    - intros e. now destruct (is_service_call e). }
  assert (Hcount : forall p, (forall a b, p (EvWriteFile a b) = false) ->
            count p (written_events (store_of (get_inputs w j))) = 0%nat).
  { intros p Hp'. apply (count_none p is_write _ Hw).
    intros [] He; try discriminate. apply Hp'. }
  destruct Hcbs as [-> | ->].
  - exists (cleanup w j (rm_tmpdir (context j))).
    split; [|split; [|split; [|split; [|split]]]].
    + rewrite Hrun, <- !app_assoc. reflexivity.
    + now rewrite Hh.
    + rewrite count_app, Hcount by reflexivity. reflexivity.
    + rewrite count_app, Hcount by reflexivity. reflexivity.
    + rewrite count_app, Hcount by reflexivity. reflexivity.
    + exact Hfin.
  - exists (EvCallback (Some []) permanentFail ::
            cleanup w j (rm_tmpdir (context j)))%list.
    split; [|split; [|split; [|split; [|split]]]].
    + rewrite Hrun, <- !app_assoc. reflexivity.
    + now rewrite Hh.
    + rewrite count_app, Hcount by reflexivity. reflexivity.
    + rewrite count_app, Hcount by reflexivity. reflexivity.
    + rewrite count_app, Hcount by reflexivity. reflexivity.
    + change (EvCallback (Some []) permanentFail :: ?l)%list
        with ([EvCallback (Some []) permanentFail] ++ l)%list.
      now rewrite count_app, Hfin.
Qed.

(** A service as C8 describes it. *)
Lemma running_thrice_then_complete_witness :
  exists r h pre o post,
    run 5 (Samples.with_get_task
             (fun n _ _ =>
                Val (mkTaskInfo (if (n <? 3)%nat then "RUNNING" else "COMPLETE")
                       PNone))
             (Samples.service "QUEUED")) Samples.echo =
      Some (r, h, (pre ++ EvCallback o success :: post)%list) /\
    h_state h = "COMPLETE" /\
    count is_create pre = 1%nat /\
    count is_get pre = 4%nat /\
    count is_callback pre = 0%nat /\
    count is_service_call post = 0%nat.
Proof.
  eapply (running_thrice_then_complete 5).
  - reflexivity.
  - reflexivity.
  - eexists; reflexivity.
  - eexists; reflexivity.
  - eexists; reflexivity.
  - eexists; reflexivity.
  - reflexivity.
  - reflexivity.
  - apply Nat.le_refl.
Defined.

(* ================================================================= *)
(** ** Requirements: the last one wins *)

Lemma find_app_first {A} (p : A -> bool) (a b : list A) :
  find p (a ++ b)%list =
  match find p a with Some x => Some x | None => find p b end.
Proof.
  induction a as [|x a IH]; simpl; [reflexivity|]. now destruct (p x).
Qed.

Lemma find_last_snoc {A} (p : A -> bool) (l : list A) (x : A) :
  find_last p (l ++ [x])%list = if p x then Some x else find_last p l.
Proof. unfold find_last. now rewrite rev_app_distr. Qed.

Lemma find_last_cons {A} (p : A -> bool) (x : A) (l : list A) :
  find_last p (x :: l) =
  match find_last p l with
  | Some y => Some y
  | None => if p x then Some x else None
  end.
Proof. unfold find_last. simpl. now rewrite find_app_first. Qed.

Lemma find_last_app {A} (p : A -> bool) (a b : list A) :
  find_last p (a ++ b)%list =
  match find_last p b with Some y => Some y | None => find_last p a end.
Proof. unfold find_last. now rewrite rev_app_distr, find_app_first. Qed.

Lemma requirement_classes_differ i :
  is_ResourceRequirement i = true -> is_DockerRequirement i = false.
Proof.
  unfold is_ResourceRequirement, is_DockerRequirement, eq_str.
  destruct (get_default "class" i (PStr "NA")); try discriminate.
  intros H. apply String.eqb_eq in H. now subst.
Qed.

(* ================================================================= *)
(** ** The container image *)

Lemma image_loop reqs : forall a,
  fold_left
    (fun container i =>
       if is_DockerRequirement i
       then get_default "dockerPull" i
              (get_default "dockerImageId" i (PStr fallback_image))
       else container)
    reqs a =
  match find_last is_DockerRequirement reqs with
  | Some i =>
      get_default "dockerPull" i
        (get_default "dockerImageId" i (PStr fallback_image))
  | None => a
  end.
Proof.
  induction reqs as [|i reqs IH] using rev_ind; intros a; [reflexivity|].
  rewrite fold_left_app, find_last_snoc. simpl.
  destruct (is_DockerRequirement i); [reflexivity|apply IH].
Qed.

(** C5.  The code departs from the claim where a default image is
    configured and the last [DockerRequirement] names neither [dockerPull]
    nor [dockerImageId] (here it builds from a [dockerFile]):
    [get_container] has put the configured default into [container], but
    hands the local [default], the hard-coded fallback, to
    [i.get("dockerImageId", default)], and the job runs in [python:2.7].
    The claimed order gives the configured image, and so does
    [get_container] itself for the same tool without the requirement. *)
Lemma fallback_overrides_configured_default :
  get_container Samples.built_from_dockerfile = PStr "python:2.7" /\
  resolved_image Samples.built_from_dockerfile = PStr "ubuntu:20.04" /\
  get_container
    (Samples.with_spec Samples.no_spec
       (context Samples.built_from_dockerfile) Samples.built_from_dockerfile)
    = PStr "ubuntu:20.04".
Proof. repeat split; reflexivity. Qed.

(** What [get_container] computes, and where it is the specified order.
    The image is the one the last [DockerRequirement], in the order
    requirements then hints, determines: its [dockerPull] if it has one,
    else its [dockerImageId] if it has one, else the hard-coded fallback
    image; without a [DockerRequirement] it is the configured default, and
    the fallback if none is configured.  This is the specified order
    whenever the last [DockerRequirement] names an image or no default
    image is configured. *)
Lemma container_image_resolution j :
  get_container j =
    match find_last is_DockerRequirement (container_requirements j) with
    | Some i =>
        match explicit_image i with
        | Some v => v
        | None => PStr fallback_image
        end
    | None => default_image j
    end /\
  (match find_last is_DockerRequirement (container_requirements j) with
   | Some i => explicit_image i <> None \/ default_image j = PStr fallback_image
   | None => True
   end -> get_container j = resolved_image j) /\
  (forall earlier i later,
     container_requirements j = (earlier ++ i :: later)%list ->
     is_DockerRequirement i = true ->
     find_last is_DockerRequirement later = None ->
     get_container j =
       match explicit_image i with
       | Some v => v
       | None => PStr fallback_image
       end).
Proof.
  assert (Hget : get_container j =
            match find_last is_DockerRequirement (container_requirements j) with
            | Some i =>
                match explicit_image i with
                | Some v => v
                | None => PStr fallback_image
                end
            | None => default_image j
            end).
  { unfold get_container. fold (container_requirements j).
    cbv zeta. rewrite image_loop.
    destruct (find_last is_DockerRequirement (container_requirements j))
      as [i|]; [|reflexivity].
    unfold explicit_image, get_default.
    destruct (dict_get "dockerPull" i); [reflexivity|].
    now destruct (dict_get "dockerImageId" i). }
  split; [exact Hget|split].
  - rewrite Hget. unfold resolved_image.
    destruct (find_last is_DockerRequirement (container_requirements j))
      as [i|]; [|reflexivity].
    destruct (explicit_image i); [reflexivity|].
    intros [H|H]; [congruence|now rewrite H].
  - intros earlier i later Heq Hi Hlater.
    rewrite Hget, Heq, find_last_app, find_last_cons, Hlater, Hi. reflexivity.
Qed.

(* ================================================================= *)
(** ** The output descriptors *)

Lemma requirements_loop_outputs w j reqs : forall c c',
  requirements_loop w j reqs c = Val c' ->
  output_parameters c' =
    (output_parameters c ++ flat_map (docker_output w j) reqs)%list.
Proof.
  induction reqs as [|i reqs IH]; intros c c'; simpl.
  - intros [= <-]. now rewrite app_nil_r.
  - destruct (requirement_step w j i c) as [c1|e] eqn:Hstep; simpl;
      [|discriminate].
    intros Hloop. rewrite (IH _ _ Hloop), app_assoc. f_equal.
    unfold requirement_step in Hstep. unfold docker_output.
    destruct (is_ResourceRequirement i) eqn:Hr.
    + rewrite (requirement_classes_differ _ Hr).
      destruct (unusable _ || unusable _ || unusable _); [discriminate|].
      destruct (as_float (selected_ram i)); simpl in Hstep; [|discriminate].
      destruct (as_float (selected_disk i)); simpl in Hstep; [|discriminate].
      injection Hstep as <-. simpl. now rewrite app_nil_r.
    + destruct (is_DockerRequirement i).
      * destruct (get_default "dockerOutputDirectory" i PNone);
          injection Hstep as <-; simpl; now rewrite ?app_nil_r.
      * injection Hstep as <-. now rewrite app_nil_r.
Qed.

Lemma create_task_msg_claim w j t :
  create_task_msg w j = Val t ->
  exists st c,
    get_inputs w j = Ok st /\
    requirements_loop w j (builder_requirements j)
      (mkClaim None None None (initial_outputs w j)) = Val c /\
    Tes.inputs t = st_inputs st /\
    Tes.outputs t = output_parameters c /\
    Tes.resources t = Tes.mkResources (cpus c) (ram c) (disk c) /\
    Tes.executors t =
      [Tes.mkExecutor (command_line j) (get_container j) docker_workdir
         (output2path (job_stdout j)) (output2path (job_stderr j))
         (job_stdin j) (get_envvars w j)].
Proof.
  unfold create_task_msg.
  destruct (get_inputs w j) as [st|e st]; [|discriminate].
  destruct (requirements_loop w j _ _) as [c|e]; simpl; [|discriminate].
  intros [= <-]. exists st, c. simpl. repeat split; reflexivity.
Qed.

Lemma docker_outputs_named w j :
  Forall (fun o => Tes.out_name o = "dockerOutputDirectory")
    (docker_outputs w j).
Proof.
  unfold docker_outputs. induction (builder_requirements j) as [|i l IH];
    simpl; [constructor|].
  apply Forall_app. split; [|exact IH].
  unfold docker_output. destruct (is_DockerRequirement i); [|constructor].
  destruct (get_default "dockerOutputDirectory" i PNone);
    repeat constructor.
Qed.

(** C4, as stated, does not hold.  A [DockerRequirement] with a
    [dockerOutputDirectory] puts its descriptor after the one of the working
    directory. *)
Lemma workdir_output_not_last :
  exists t,
    create_task_msg (Samples.service "COMPLETE")
      (Samples.with_requirements
         [[("class", PStr "DockerRequirement");
           ("dockerPull", PStr "debian:stable");
           ("dockerOutputDirectory", PStr "/data")]]
         Samples.echo) = Val t /\
    Tes.outputs t =
      [Tes.mkOutput "workdir" (Some "file:///out/") (PStr "/var/spool/cwl")
         "DIRECTORY";
       Tes.mkOutput "dockerOutputDirectory" (Some "file:///out/")
         (PStr "/data") "DIRECTORY"].
Proof. eexists. split; reflexivity. Qed.

(** C4, amended.  In every task that translation produces, the descriptor
    of the working directory is present, after the descriptors of stdout
    and stderr and before one descriptor for each [DockerRequirement] of the
    builder that declares a [dockerOutputDirectory].  It is the last
    descriptor when no such requirement is present; otherwise the last one
    is a [dockerOutputDirectory] descriptor. *)
Theorem workdir_output_position w j t :
  create_task_msg w j = Val t ->
  Tes.outputs t =
    (std_output w j "stdout" (job_stdout j) ++
     std_output w j "stderr" (job_stderr j) ++
     [workdir_output w j] ++ docker_outputs w j)%list /\
  (docker_outputs w j = [] ->
   last (Tes.outputs t) (workdir_output w j) = workdir_output w j /\
   Tes.outputs t <> []) /\
  (docker_outputs w j <> [] ->
   Tes.out_name (last (Tes.outputs t) (workdir_output w j)) =
     "dockerOutputDirectory").
Proof.
  intros Ht.
  destruct (create_task_msg_claim _ _ _ Ht)
    as (st & c & _ & Hloop & _ & Hout & _).
  assert (Heq : Tes.outputs t =
            (std_output w j "stdout" (job_stdout j) ++
             std_output w j "stderr" (job_stderr j) ++
             [workdir_output w j] ++ docker_outputs w j)%list).
  { rewrite Hout, (requirements_loop_outputs _ _ _ _ _ Hloop). simpl.
    unfold initial_outputs, docker_outputs. now rewrite <- !app_assoc. }
  split; [exact Heq|split].
  - intros Hnil. rewrite Heq, Hnil, app_nil_r, !app_assoc.
    split; [apply last_last|].
    intros H. apply app_eq_nil in H. destruct H as [_ H]. discriminate.
  - intros Hne. rewrite Heq, !app_assoc.
    pose proof (docker_outputs_named w j) as Hall.
    destruct (exists_last Hne) as (l & o & Hlast).
    rewrite Hlast in *. rewrite app_assoc, last_last.
    apply Forall_app in Hall. destruct Hall as [_ Hall].
    now inversion Hall.
Qed.

(** A task the amended C4 speaks about: stdout is captured and there is no
    [DockerRequirement]. *)
Lemma workdir_output_position_witness :
  exists t,
    create_task_msg (Samples.service "COMPLETE") Samples.echo_to_file = Val t /\
    Tes.outputs t =
      [Tes.mkOutput "stdout" (Some "file:///out/out.txt")
         (PStr "/var/spool/cwl/out.txt") "FILE";
       Tes.mkOutput "workdir" (Some "file:///out/") (PStr "/var/spool/cwl")
         "DIRECTORY"].
Proof.
  eexists. split; [reflexivity|].
  exact (proj1 (workdir_output_position (Samples.service "COMPLETE")
                  Samples.echo_to_file _ eq_refl)).
Defined.

(* ================================================================= *)
(** ** The resource claim *)

Lemma requirements_loop_resources w j reqs : forall c c',
  requirements_loop w j reqs c = Val c' ->
  match find_last is_ResourceRequirement reqs with
  | Some i =>
      exists r d,
        as_float (selected_ram i) = Val r /\
        as_float (selected_disk i) = Val d /\
        cpus c' = Some (selected_cores i) /\
        ram c' = Some (r / mib_per_gb)%float /\
        disk c' = Some (d / mib_per_gb)%float
  | None => cpus c' = cpus c /\ ram c' = ram c /\ disk c' = disk c
  end.
Proof.
  induction reqs as [|i reqs IH]; intros c c'; simpl.
  - intros [= <-]. now repeat split.
  - destruct (requirement_step w j i c) as [c1|e] eqn:Hstep; simpl;
      [|discriminate].
    intros Hloop. specialize (IH _ _ Hloop). rewrite find_last_cons.
    destruct (find_last is_ResourceRequirement reqs) as [y|]; [exact IH|].
    destruct IH as (H1 & H2 & H3). rewrite H1, H2, H3.
    unfold requirement_step in Hstep.
    destruct (is_ResourceRequirement i).
    + destruct (unusable _ || unusable _ || unusable _); [discriminate|].
      destruct (as_float (selected_ram i)) as [r|]; simpl in Hstep;
        [|discriminate].
      destruct (as_float (selected_disk i)) as [d|]; simpl in Hstep;
        [|discriminate].
      injection Hstep as <-. exists r, d. now repeat split.
    + destruct (is_DockerRequirement i).
      * destruct (get_default "dockerOutputDirectory" i PNone);
          injection Hstep as <-; now repeat split.
      * injection Hstep as <-. now repeat split.
Qed.



(* ================================================================= *)
(** ** Dynamic resource requests *)

Lemma dynamic_request_step w j i c :
  dynamic_request i = true ->
  requirement_step w j i c = Exn (UnsupportedRequirement dynamic_msg).
Proof.
  unfold dynamic_request, requirement_step, unusable.
  destruct (is_ResourceRequirement i); [|discriminate]. simpl.
  destruct (is_str (selected_cores i)), (is_str (selected_ram i)),
    (is_str (selected_disk i)); try discriminate;
    intros _; now rewrite ?orb_true_r.
Qed.

Lemma typed_step w j i c :
  cwl_resources i = true ->
  match requirement_step w j i c with
  | Val _ => True
  | Exn e => e = UnsupportedRequirement dynamic_msg
  end.
Proof.
  unfold cwl_resources, requirement_step, cwl_bound, numeric, unusable.
  destruct (is_ResourceRequirement i); simpl.
  - destruct (is_None (selected_cores i) || is_str (selected_cores i));
      simpl; [reflexivity|].
    destruct (is_None (selected_ram i) || is_str (selected_ram i));
      simpl; [reflexivity|].
    destruct (is_None (selected_disk i) || is_str (selected_disk i));
      simpl; [reflexivity|].
    destruct (as_float (selected_ram i)); [|discriminate].
    destruct (as_float (selected_disk i)); [|discriminate].
    intros _. exact I.
  - intros _. destruct (is_DockerRequirement i); [|exact I].
    now destruct (get_default "dockerOutputDirectory" i PNone).
Qed.

Lemma dynamic_request_loop w j i reqs :
  In i reqs -> dynamic_request i = true ->
  forall c,
    exists e,
      requirements_loop w j reqs c = Exn e /\
      (forallb cwl_resources reqs = true ->
       e = UnsupportedRequirement dynamic_msg).
Proof.
  induction reqs as [|x reqs IH]; intros Hin Hdyn c; [destruct Hin|].
  simpl. destruct Hin as [->|Hin].
  - rewrite (dynamic_request_step w j i c Hdyn). simpl. now eexists.
  - destruct (requirement_step w j x c) as [c1|e] eqn:Hstep; simpl.
    + destruct (IH Hin Hdyn c1) as (e & He & Hty). exists e.
      split; [exact He|]. intros H. apply andb_prop in H. tauto.
    + exists e. split; [reflexivity|]. intros H. apply andb_prop in H.
      pose proof (typed_step w j x c (proj1 H)) as Hty.
      now rewrite Hstep in Hty.
Qed.

(** C7, as stated, does not hold.  The loop reads the requirements of the
    builder and no hint: a tool that only hints at a dynamic request is
    translated, with no resource claim, submitted, and reported as a
    success.  And a dynamic request among the requirements is reached only
    after the inputs have resolved and the requirements before it have been
    read: a script that cannot be written raises [IOError], and an earlier
    request with a list as RAM bound raises [TypeError]. *)
Lemma hinted_dynamic_request_accepted :
  (spec_hints (spec Samples.hinted_dynamic_ram) =
     Some [Samples.dynamic_request_of_ram] /\
   dynamic_request Samples.dynamic_request_of_ram = true /\
   exists task,
     create_task_msg (Samples.service "COMPLETE") Samples.hinted_dynamic_ram =
       Val task /\
     Tes.resources task = Tes.mkResources None None None /\
     run 2 (Samples.service "COMPLETE") Samples.hinted_dynamic_ram =
       Some (Returned, mkHandle (Some "task-1") "COMPLETE" None 1,
             [EvCreateTask task; EvSleep 1 2;
              EvGetTask (Some "task-1") MINIMAL; EvCollect "/out";
              EvCallback None success; EvCleanup false;
              EvRmtree "/stage"])) /\
  (In Samples.dynamic_request_of_ram
     (builder_requirements Samples.dynamic_ram_with_script) /\
   create_task_msg Samples.full_disk Samples.dynamic_ram_with_script =
     Exn IOError) /\
  (In Samples.dynamic_request_of_ram
     (builder_requirements Samples.list_ram_then_dynamic_ram) /\
   create_task_msg (Samples.service "COMPLETE")
     Samples.list_ram_then_dynamic_ram = Exn TypeError).
Proof.
  split; [|split].
  - split; [reflexivity|]. split; [reflexivity|].
    eexists. split; [reflexivity|]. split; reflexivity.
  - split; [now left|reflexivity].
  - split; [right; now left|reflexivity].
Qed.

Lemma cwl_requirements_resources reqs :
  forallb cwl_requirement reqs = true -> forallb cwl_resources reqs = true.
Proof.
  induction reqs as [|i reqs IH]; simpl; [reflexivity|].
  intros H. apply andb_prop in H. destruct H as [Hi H].
  unfold cwl_requirement in Hi. apply andb_prop in Hi.
  now rewrite (proj1 Hi), IH.
Qed.

(** C7, amended.  If a [ResourceRequirement] among the requirements of
    the builder (hints are not read) selects a bound that is text,
    translation raises and never returns a task, [run] raises with it
    before anything is submitted and without a callback.  The exception is
    [UnsupportedRequirement] whenever the inputs resolve and the
    requirements are those of a validated document: bounds that are absent,
    text or numbers, a [dockerOutputDirectory] that is text. *)
Theorem dynamic_resources_rejected w j i :
  In i (builder_requirements j) ->
  dynamic_request i = true ->
  (exists e,
     create_task_msg w j = Exn e /\
     (forall st,
        get_inputs w j = Ok st ->
        forallb cwl_requirement (builder_requirements j) = true ->
        e = UnsupportedRequirement dynamic_msg)) /\
  (forall fuel,
     exists e tr,
       run fuel w j = Some (Raised e, initial_handle None, tr) /\
       count is_service_call tr = 0%nat /\
       count is_callback tr = 0%nat).
Proof.
  intros Hin Hdyn.
  assert (Hmsg : exists e,
            create_task_msg w j = Exn e /\
            (forall st,
               get_inputs w j = Ok st ->
               forallb cwl_requirement (builder_requirements j) = true ->
               e = UnsupportedRequirement dynamic_msg)).
  { unfold create_task_msg.
    destruct (get_inputs w j) as [st|e st].
    - destruct (dynamic_request_loop w j i _ Hin Hdyn
                  (mkClaim None None None (initial_outputs w j)))
        as (e & He & Hty).
      rewrite He. simpl. exists e. split; [reflexivity|]. intros _ _ H.
      exact (Hty (cwl_requirements_resources _ H)).
    - exists e. split; [reflexivity|]. discriminate. }
  split; [exact Hmsg|].
  intros fuel. destruct Hmsg as (e & He & _). unfold run. rewrite He.
  exists e, (written_events (store_of (get_inputs w j))).
  pose proof (written_events_are_writes (store_of (get_inputs w j))) as Hw.
  split; [reflexivity|split].
  - apply (count_none _ is_write _ Hw). now intros [].
  - apply (count_none _ is_write _ Hw). now intros [].
Qed.

(** A job the amended C7 speaks about: the RAM bound of a requirement is
    an expression. *)
Lemma dynamic_resources_rejected_witness :
  (exists e,
     create_task_msg (Samples.service "COMPLETE") Samples.dynamic_ram = Exn e /\
     (forall st,
        get_inputs (Samples.service "COMPLETE") Samples.dynamic_ram = Ok st ->
        forallb cwl_requirement (builder_requirements Samples.dynamic_ram) = true ->
        e = UnsupportedRequirement dynamic_msg)) /\
  (forall fuel,
     exists e tr,
       run fuel (Samples.service "COMPLETE") Samples.dynamic_ram =
         Some (Raised e, initial_handle None, tr) /\
       count is_service_call tr = 0%nat /\
       count is_callback tr = 0%nat).
Proof.
  apply (dynamic_resources_rejected (Samples.service "COMPLETE")
           Samples.dynamic_ram Samples.dynamic_request_of_ram).
  - simpl. right. left. reflexivity.
  - reflexivity.
Defined.

Example dynamic_ram_is_unsupported :
  create_task_msg (Samples.service "COMPLETE") Samples.dynamic_ram =
    Exn (UnsupportedRequirement dynamic_msg).
Proof. reflexivity. Qed.

(* ================================================================= *)
(** ** Writable entries of the listing *)

Lemma parse_listing_app w j a b s :
  parse_listing w j (a ++ b)%list s =
    seq (parse_listing w j a s) (parse_listing w j b).
Proof.
  revert s. induction a as [|x a IH]; intros s; simpl; [reflexivity|].
  destruct (parse_listing_item w j x s) as [s1|e s1]; simpl;
    [apply IH|reflexivity].
Qed.

Lemma parse_listing_writable w j item post s :
  dict_has "writable" item = true ->
  parse_listing w j (item :: post) s =
    Raise (UnsupportedRequirement writable_msg) s.
Proof.
  intros H. simpl. unfold parse_listing_item. now rewrite H.
Qed.

(** C10.  An entry of the listing that has the key [writable], whatever
    its value, makes [parse_listing] raise when the loop reaches it, with
    the inputs as the entries before it left them: [UnsupportedRequirement]
    unless an earlier entry raised first.  No task is then built, and [run]
    raises without calling the service. *)
Theorem writable_entry_rejected w j pre item post :
  generatefiles_listing j = (pre ++ item :: post)%list ->
  dict_has "writable" item = true ->
  (forall s,
     parse_listing w j (pre ++ item :: post)%list s =
       match parse_listing w j pre s with
       | Ok s' => Raise (UnsupportedRequirement writable_msg) s'
       | Raise e s' => Raise e s'
       end) /\
  (exists e,
     create_task_msg w j = Exn e /\
     (forall s0 s1,
        parse_job_orders (joborder j) (mkStore [] []) = Ok s0 ->
        parse_listing w j pre s0 = Ok s1 ->
        e = UnsupportedRequirement writable_msg)) /\
  (forall fuel,
     exists e tr,
       run fuel w j = Some (Raised e, initial_handle None, tr) /\
       count is_service_call tr = 0%nat).
Proof.
  intros Hl Hw.
  assert (Hpl : forall s,
            parse_listing w j (pre ++ item :: post)%list s =
              match parse_listing w j pre s with
              | Ok s' => Raise (UnsupportedRequirement writable_msg) s'
              | Raise e s' => Raise e s'
              end).
  { intros s. rewrite parse_listing_app.
    destruct (parse_listing w j pre s) as [s'|e s']; simpl; [|reflexivity].
    fold (parse_listing w j (item :: post) s').
    exact (parse_listing_writable w j item post s' Hw). }
  assert (Hmsg : exists e,
            create_task_msg w j = Exn e /\
            (forall s0 s1,
               parse_job_orders (joborder j) (mkStore [] []) = Ok s0 ->
               parse_listing w j pre s0 = Ok s1 ->
               e = UnsupportedRequirement writable_msg)).
  { unfold create_task_msg, get_inputs. rewrite Hl.
    destruct (parse_job_orders (joborder j) (mkStore [] [])) as [s0|e s0];
      simpl.
    - rewrite Hpl.
      destruct (parse_listing w j pre s0) as [s1|e s1] eqn:Hpre.
      + eexists. split; [reflexivity|]. reflexivity.
      + exists e. split; [reflexivity|]. intros ? ? [= <-] H.
        rewrite Hpre in H. discriminate.
    - exists e. split; [reflexivity|]. discriminate. }
  split; [exact Hpl|split; [exact Hmsg|]].
  intros fuel. destruct Hmsg as (e & He & _). unfold run. rewrite He.
  exists e, (written_events (store_of (get_inputs w j))).
  split; [reflexivity|].
  apply (count_none _ is_write _
           (written_events_are_writes (store_of (get_inputs w j)))).
  now intros [].
Qed.

(** A listing C10 speaks about: a staged file, then an entry marked
    [writable: false].  The inputs hold the descriptor of the first entry
    alone when the exception is raised. *)
Lemma writable_entry_rejected_witness :
  (forall s,
     parse_listing (Samples.service "COMPLETE") Samples.writable_false
       ([Samples.staged "a.txt"] ++
        (("writable", PBool false) :: Samples.staged "b.txt") :: [])%list s =
       match parse_listing (Samples.service "COMPLETE") Samples.writable_false
               [Samples.staged "a.txt"] s with
       | Ok s' => Raise (UnsupportedRequirement writable_msg) s'
       | Raise e s' => Raise e s'
       end) /\
  (exists e,
     create_task_msg (Samples.service "COMPLETE") Samples.writable_false
       = Exn e /\
     (forall s0 s1,
        parse_job_orders (joborder Samples.writable_false) (mkStore [] [])
          = Ok s0 ->
        parse_listing (Samples.service "COMPLETE") Samples.writable_false
          [Samples.staged "a.txt"] s0 = Ok s1 ->
        e = UnsupportedRequirement writable_msg)) /\
  (forall fuel,
     exists e tr,
       run fuel (Samples.service "COMPLETE") Samples.writable_false =
         Some (Raised e, initial_handle None, tr) /\
       count is_service_call tr = 0%nat).
Proof.
  apply (writable_entry_rejected (Samples.service "COMPLETE")
           Samples.writable_false [Samples.staged "a.txt"]
           (("writable", PBool false) :: Samples.staged "b.txt") []).
  - reflexivity.
  - reflexivity.
Defined.

Example writable_false_is_unsupported :
  get_inputs (Samples.service "COMPLETE") Samples.writable_false =
    Raise (UnsupportedRequirement writable_msg)
      (mkStore
         [Tes.mkInput "a.txt" "InitialWorkDirRequirement:cwl_input:a.txt"
            (Some (PStr "file:///data/a.txt")) (PStr "/var/spool/cwl/a.txt")
            None "FILE"]
         []).
Proof. reflexivity. Qed.

(* ================================================================= *)
(** ** The job order *)

Lemma if_key_get {St} key (body : pyval -> St -> step St) d s :
  if_key key body d s =
  match dict_get key d with Some v => body v s | None => Ok s end.
Proof.
  induction d as [|[k' v] d IH]; simpl; [reflexivity|].
  now destruct (String.eqb k' key).
Qed.

Lemma with_key_get {A} key (body : pyval -> A) default d :
  with_key key body default d =
  match dict_get key d with Some v => body v | None => default end.
Proof.
  induction d as [|[k' v] d IH]; simpl; [reflexivity|].
  now destruct (String.eqb k' key).
Qed.

Lemma dict_get_In key d v : dict_get key d = Some v -> In (key, v) d.
Proof.
  induction d as [|[k' x] d IH]; simpl; [discriminate|].
  destruct (String.eqb k' key) eqn:Hk.
  - intros [= <-]. apply String.eqb_eq in Hk. subst. now left.
  - intros H. right. now apply IH.
Qed.

(** A well-formed reference has a descriptor. *)
Lemma create_input_reference k d :
  is_reference d = true ->
  well_formed_reference d = true ->
  exists p, create_input k d = Val p.
Proof.
  unfold is_reference, well_formed_reference, create_input.
  unfold dict_has, subscript, get_default, eq_str.
  intros _ H.
  destruct (dict_get "class" d) as [[| | | |c| | |]|];
    cbn in H; try discriminate H.
  destruct (dict_get "location" d) as [[| | | |l| | |]|];
    cbn in H; rewrite ?andb_false_r in H; try discriminate H.
  destruct (dict_get "path" d) as [[| | | |p| | |]|];
    cbn in H; rewrite ?andb_false_r in H; try discriminate H.
  rewrite !andb_true_r in H.
  assert (Hty : (upper c =? "FILE") || ((upper c =? "DIRECTORY") || false)
                = true).
  { destruct (dict_get "contents" d) as [[| | | |t| | |]|];
      cbn in H; rewrite ?andb_false_r, ?andb_true_r in H;
      try discriminate H;
      apply orb_prop in H;
      destruct H as [H|H]; apply String.eqb_eq in H; now subst c. }
  destruct (dict_get "contents" d) as [[| | | |t| | |]|];
    cbn in H; rewrite ?andb_false_r in H; try discriminate H;
    cbn; unfold Tes.new_Input; cbn; rewrite Hty; eexists; reflexivity.
Qed.

Lemma grown_nil s : grown s [] = s.
Proof. destruct s. unfold grown. simpl. now rewrite app_nil_r. Qed.

Lemma grown_grown s a b : grown (grown s a) b = grown s (a ++ b)%list.
Proof. unfold grown. simpl. now rewrite app_assoc. Qed.

Lemma resolved_items d :
  Forall (fun kv => resolved (snd kv)) d ->
  forallb (fun kv => admissible true (snd kv) && references_only true (snd kv))
    d = true ->
  forall s,
    exists ins,
      walk_items parse_job_order d s = Ok (grown s ins) /\
      descriptors (items_references leaf_references d) = map Val ins.
Proof.
  induction 1 as [|[sk sv] d Hsv _ IH]; intros Hall s; simpl.
  - exists []. now rewrite grown_nil.
  - simpl in Hall. apply andb_prop in Hall. destruct Hall as [Hx Hall].
    apply andb_prop in Hx. destruct Hx as [Hadm Hro].
    assert (Hd : is_dict sv = true) by (now destruct sv).
    rewrite Hd. destruct (Hsv sk s Hro) as (ins1 & Heq & Hd1).
    simpl in Heq, Hd1. rewrite Heq. simpl.
    destruct (IH Hall (grown s ins1)) as (ins2 & -> & Hd2).
    exists (ins1 ++ ins2)%list. rewrite grown_grown. split; [reflexivity|].
    unfold descriptors in *. now rewrite !map_app, Hd1, Hd2.
Qed.

Lemma resolved_list k l :
  Forall resolved l ->
  forallb (fun x => admissible true x && references_only true x) l = true ->
  forall i s,
    exists ins,
      walk_list parse_job_order k i l s = Ok (grown s ins) /\
      descriptors (list_references leaf_references k i l) = map Val ins.
Proof.
  induction 1 as [|x l Hx _ IH]; intros Hall i s;
    cbn [walk_list list_references].
  - exists []. now rewrite grown_nil.
  - cbn [forallb] in Hall. apply andb_prop in Hall. destruct Hall as [Hx' Hall].
    apply andb_prop in Hx'. destruct Hx' as [Hadm Hro].
    assert (Hd : is_dict x = true) by (now destruct x).
    rewrite Hd.
    destruct (Hx (k ++ "[" ++ decimal i ++ "]") s Hro) as (ins1 & -> & Hd1).
    cbn [seq].
    destruct (IH Hall (S i) (grown s ins1)) as (ins2 & -> & Hd2).
    exists (ins1 ++ ins2)%list. rewrite grown_grown. split; [reflexivity|].
    unfold descriptors in *. now rewrite !map_app, Hd1, Hd2.
Qed.

Lemma resolved_files fs :
  Forall resolved fs ->
  forallb (fun f => has_text_basename f && references_only true f) fs = true ->
  forall s,
    exists ins,
      walk_files parse_job_order fs s = Ok (grown s ins) /\
      descriptors (files_references leaf_references fs) = map Val ins.
Proof.
  induction 1 as [|f fs Hf _ IH]; intros Hall s; simpl.
  - exists []. now rewrite grown_nil.
  - simpl in Hall. apply andb_prop in Hall. destruct Hall as [Hx Hall].
    apply andb_prop in Hx. destruct Hx as [Hb Hro].
    unfold has_text_basename in Hb.
    destruct (basename_of f) as [b|]; [|discriminate]. simpl.
    destruct (Hf b s Hro) as (ins1 & -> & Hd1). simpl.
    destruct (IH Hall (grown s ins1)) as (ins2 & -> & Hd2).
    exists (ins1 ++ ins2)%list. rewrite grown_grown. split; [reflexivity|].
    unfold descriptors in *. now rewrite !map_app, Hd1, Hd2.
Qed.

(** The induction carries the elements of a list along with the list,
    for the list of secondary files of a reference. *)
Lemma resolved_everywhere v :
  resolved v /\ match v with PList l => Forall resolved l | _ => True end.
Proof.
  induction v as [|b|z|f|t|t|l IH|d IH] using pyval_tree_ind;
    try (split; [|exact I]; intros k s _; exists []; simpl;
         now rewrite grown_nil).
  - assert (Hl : Forall resolved l).
    { apply Forall_forall. intros x Hx. rewrite Forall_forall in IH.
      exact (proj1 (IH x Hx)). }
    split; [|exact Hl]. intros k s Hro. simpl in Hro. simpl.
    exact (resolved_list k l Hl Hro 0%nat s).
  - split; [|exact I]. intros k s Hro. simpl in Hro. simpl.
    destruct (is_reference d) eqn:Href.
    + apply andb_prop in Hro. destruct Hro as [Hcls Hsec].
      destruct (create_input_reference k d Href Hcls) as (p & Hp).
      unfold descriptors. simpl. fold (descriptors
        (with_key "secondaryFiles" (secondary_references leaf_references) [] d)).
      rewrite Hp. simpl.
      rewrite if_key_get. rewrite with_key_get in Hsec. rewrite with_key_get.
      destruct (dict_get "secondaryFiles" d) as [sf|] eqn:Hsf.
      * destruct sf as [| | | | | |fs|]; try discriminate.
        assert (Hfs : Forall resolved fs).
        { rewrite Forall_forall in IH.
          exact (proj2 (IH _ (dict_get_In _ _ _ Hsf))). }
        simpl.
        destruct (resolved_files fs Hfs Hsec (append_input p s))
          as (ins & -> & Hd).
        exists (p :: ins)%list. split.
        -- unfold grown, append_input. simpl. now rewrite <- app_assoc.
        -- simpl. now rewrite Hd.
      * exists [p]. split; reflexivity.
    + assert (Hd : Forall (fun kv => resolved (snd kv)) d).
      { apply Forall_forall. intros x Hx. rewrite Forall_forall in IH.
        exact (proj1 (IH x Hx)). }
      exact (resolved_items d Hd Hro s).
Qed.

Lemma resolved_job_order jo :
  forallb (fun kv => references_only true (snd kv)) jo = true ->
  forall s,
    exists ins,
      parse_job_orders jo s = Ok (grown s ins) /\
      descriptors (job_order_references jo) = map Val ins.
Proof.
  induction jo as [|[k v] jo IH]; intros Hall s; simpl.
  - exists []. now rewrite grown_nil.
  - simpl in Hall. apply andb_prop in Hall. destruct Hall as [Hv Hall].
    destruct (proj1 (resolved_everywhere v) k s Hv) as (ins1 & -> & Hd1).
    simpl. destruct (IH Hall (grown s ins1)) as (ins2 & -> & Hd2).
    exists (ins1 ++ ins2)%list. rewrite grown_grown. split; [reflexivity|].
    unfold descriptors in *. now rewrite !map_app, Hd1, Hd2.
Qed.

(** The walk of a mapping ends at the first value that is not a mapping,
    and the walk of a list at the first such element. *)
Lemma walk_items_stops {St} (rec : string -> pyval -> St -> step St)
    pre sk sv rest s :
  forallb (fun kv => is_dict (snd kv)) pre = true ->
  is_dict sv = false ->
  walk_items rec (pre ++ (sk, sv) :: rest)%list s = walk_items rec pre s.
Proof.
  intros Hpre Hsv. revert s.
  induction pre as [|[k v] pre IH]; intros s; simpl.
  - now rewrite Hsv.
  - simpl in Hpre. apply andb_prop in Hpre. destruct Hpre as [Hv Hpre].
    rewrite Hv. destruct (rec k v s); simpl; [now apply IH|reflexivity].
Qed.

Lemma walk_list_stops {St} (rec : string -> pyval -> St -> step St)
    k pre x rest :
  forallb is_dict pre = true ->
  is_dict x = false ->
  forall i s,
    walk_list rec k i (pre ++ x :: rest)%list s = walk_list rec k i pre s.
Proof.
  intros Hpre Hx.
  induction pre as [|v pre IH]; intros i s; cbn [walk_list app].
  - now rewrite Hx.
  - cbn [forallb] in Hpre. apply andb_prop in Hpre. destruct Hpre as [Hv Hpre].
    rewrite Hv. destruct (rec _ v s); cbn [seq]; [now apply IH|reflexivity].
Qed.

(** C6, as stated, does not hold.  A record-valued parameter with a field
    that is an array of files holds one well-formed reference, and so does
    an array of arrays of files; the walk reaches neither and no descriptor
    is produced. *)
Lemma nested_list_references_omitted :
  references_only false (PDict [("files", PList [Samples.a_txt])]) = true /\
  leaf_references "inp" (PDict [("files", PList [Samples.a_txt])]) =
    [("files[0]", Samples.file "file:///data/a.txt" "/data/a.txt")] /\
  parse_job_order "inp" (PDict [("files", PList [Samples.a_txt])])
    (mkStore [] []) = Ok (mkStore [] []) /\
  references_only false (PList [PList [Samples.a_txt]]) = true /\
  leaf_references "inp" (PList [PList [Samples.a_txt]]) =
    [("inp[0][0]", Samples.file "file:///data/a.txt" "/data/a.txt")] /\
  parse_job_order "inp" (PList [PList [Samples.a_txt]]) (mkStore [] []) =
    Ok (mkStore [] []).
Proof. repeat split; reflexivity. Qed.

(** C6, amended.  For a value tree whose leaves are well-formed references
    and in which mappings and lists hold mappings only, the walk appends
    exactly the descriptors of the references of the tree, one for each
    and in order: a reference, then its secondary files (under their
    [basename]) and theirs; a mapping that is not a reference key by key; a
    list index by index, under the name suffixed by the index.  The same
    holds for a whole job order.  The walk of a mapping ends at the first
    value that is not a mapping and the walk of a list at the first element
    that is not one: what follows, and a list inside a mapping or a list,
    yields no descriptor. *)
Theorem one_descriptor_per_reference :
  (forall k v s,
     references_only true v = true ->
     exists ins,
       parse_job_order k v s = Ok (grown s ins) /\
       descriptors (leaf_references k v) = map Val ins /\
       List.length ins = List.length (leaf_references k v)) /\
  (forall jo s,
     forallb (fun kv => references_only true (snd kv)) jo = true ->
     exists ins,
       parse_job_orders jo s = Ok (grown s ins) /\
       descriptors (job_order_references jo) = map Val ins) /\
  (forall k pre sk sv rest s,
     is_reference (pre ++ (sk, sv) :: rest)%list = false ->
     forallb (fun kv => is_dict (snd kv)) pre = true ->
     is_dict sv = false ->
     parse_job_order k (PDict (pre ++ (sk, sv) :: rest)%list) s =
       walk_items parse_job_order pre s) /\
  (forall k pre x rest s,
     forallb is_dict pre = true ->
     is_dict x = false ->
     parse_job_order k (PList (pre ++ x :: rest)%list) s =
       walk_list parse_job_order k 0 pre s).
Proof.
  split; [|split; [|split]].
  - intros k v s Hro.
    destruct (proj1 (resolved_everywhere v) k s Hro) as (ins & Hp & Hd).
    exists ins. split; [exact Hp|split; [exact Hd|]].
    apply (f_equal (@List.length _)) in Hd. unfold descriptors in Hd.
    now rewrite !length_map in Hd.
  - intros jo s Hall. exact (resolved_job_order jo Hall s).
  - intros k pre sk sv rest s Href Hpre Hsv. simpl. rewrite Href.
    exact (walk_items_stops _ pre sk sv rest s Hpre Hsv).
  - intros k pre x rest s Hpre Hx. simpl.
    exact (walk_list_stops _ k pre x rest Hpre Hx 0%nat s).
Qed.

(** A value the amended C6 speaks about: two reads, the second with an
    index file that has an index of its own. *)
Lemma one_descriptor_per_reference_witness :
  exists ins,
    parse_job_order "reads" Samples.reads (mkStore [] []) =
      Ok (grown (mkStore [] []) ins) /\
    descriptors (leaf_references "reads" Samples.reads) = map Val ins /\
    List.length ins = 4%nat.
Proof.
  exact (proj1 one_descriptor_per_reference "reads" Samples.reads
           (mkStore [] []) eq_refl).
Defined.

Example reads_descriptor_names :
  map Tes.in_name
    (st_inputs (store_of (parse_job_order "reads" Samples.reads (mkStore [] []))))
  = ["reads[0]"; "reads[1]"; "b.bam.bai"; "b.bam.bai.md5"].
Proof. reflexivity. Qed.

(* ================================================================= *)
(** ** The environment of the executor *)

Lemma env_get_set_same k v e : env_get k (env_set k v e) = Some v.
Proof.
  induction e as [|[k' v'] e IH]; simpl.
  - now rewrite String.eqb_refl.
  - destruct (String.eqb k' k) eqn:Hk; simpl.
    + now rewrite String.eqb_refl.
    + now rewrite Hk.
Qed.

Lemma env_get_set_other k k' v e :
  String.eqb k k' = false -> env_get k' (env_set k v e) = env_get k' e.
Proof.
  intros Hk. induction e as [|[k0 v0] e IH]; simpl.
  - now rewrite Hk.
  - destruct (String.eqb k0 k) eqn:H0; simpl.
    + apply String.eqb_eq in H0. subst k0. now rewrite Hk.
    + now rewrite IH.
Qed.

Lemma env_has_get k e :
  env_has k e = match env_get k e with Some _ => true | None => false end.
Proof.
  induction e as [|[k' v'] e IH]; simpl; [reflexivity|].
  now destruct (String.eqb k' k).
Qed.

(** The loop over [os.environ]: a name that the job sets keeps its value;
    a preserved name that the job does not set gets the host's value. *)
Lemma preserve_lookup vars host : forall env k,
  env_get k
    (fold_left
       (fun env kv =>
          if existsb (String.eqb (fst kv)) vars && negb (env_has (fst kv) env)
          then env_set (fst kv) (snd kv) env else env)
       host env) =
  match env_get k env with
  | Some v => Some v
  | None => if existsb (String.eqb k) vars then env_get k host else None
  end.
Proof.
  induction host as [|[k0 v0] host IH]; intros env k; simpl.
  - destruct (env_get k env); [reflexivity|]. now destruct (existsb _ vars).
  - rewrite IH. rewrite (env_has_get k0 env).
    destruct (String.eqb k0 k) eqn:Hk.
    + apply String.eqb_eq in Hk. subst k0.
      destruct (env_get k env) as [v|] eqn:Hget.
      * simpl. rewrite andb_false_r. now rewrite Hget.
      * simpl. rewrite andb_true_r.
        destruct (existsb (String.eqb k) vars).
        -- now rewrite env_get_set_same.
        -- now rewrite Hget.
    + destruct (existsb (String.eqb k0) vars &&
                negb match env_get k0 env with Some _ => true | None => false end).
      * now rewrite (env_get_set_other k0 k v0 env Hk).
      * reflexivity.
Qed.

(** X1.  What a variable is in the environment handed to the executor:
    [TMPDIR] and [HOME] are the job's temporary and output directories,
    whatever the job and the host set; any other variable has the value the
    job gives it, else the host's value when the variable is preserved, and
    is absent otherwise. *)
Theorem get_envvars_lookup w j k :
  env_get k (get_envvars w j) =
    if String.eqb k "TMPDIR" then Some (tmpdir j)
    else if String.eqb k "HOME" then Some (outdir j)
    else match env_get k (environment j) with
         | Some v => Some v
         | None =>
             match vars_to_preserve w j with
             | Some vars =>
                 if existsb (String.eqb k) vars
                 then env_get k (os_environ w) else None
             | None => None
             end
         end.
Proof.
  unfold get_envvars. fold (vars_to_preserve w j).
  destruct (String.eqb k "TMPDIR") eqn:Ht.
  - apply String.eqb_eq in Ht. subst k. apply env_get_set_same.
  - rewrite env_get_set_other by (now rewrite String.eqb_sym).
    destruct (String.eqb k "HOME") eqn:Hh.
    + apply String.eqb_eq in Hh. subst k. apply env_get_set_same.
    + rewrite env_get_set_other by (now rewrite String.eqb_sym).
      destruct (vars_to_preserve w j) as [vars|].
      * apply preserve_lookup.
      * now destruct (env_get k (environment j)).
Qed.

Lemma env_set_keys k v e x :
  In x (map fst (env_set k v e)) <-> x = k \/ In x (map fst e).
Proof.
  induction e as [|[k' v'] e IH]; simpl.
  - intuition.
  - destruct (String.eqb k' k) eqn:Hk; simpl.
    + apply String.eqb_eq in Hk. subst k'. intuition.
    + rewrite IH. intuition.
Qed.

Lemma env_set_distinct k v e :
  NoDup (map fst e) -> NoDup (map fst (env_set k v e)).
Proof.
  induction e as [|[k' v'] e IH]; simpl; intros Hnd.
  - constructor; [intros []|constructor].
  - inversion Hnd as [|? ? Hnot Hrest]; subst.
    destruct (String.eqb k' k) eqn:Hk; simpl.
    + apply String.eqb_eq in Hk. subst k'. now constructor.
    + constructor; [|now apply IH].
      rewrite env_set_keys. intros [->|Hin]; [|contradiction].
      now rewrite String.eqb_refl in Hk.
Qed.

(** X2.  The environment stays a mapping: when the names the job sets are
    distinct, so are the names handed to the executor. *)
Theorem get_envvars_distinct w j :
  NoDup (map fst (environment j)) -> NoDup (map fst (get_envvars w j)).
Proof.
  intros Hnd. unfold get_envvars.
  do 2 apply env_set_distinct.
  destruct (if preserve_entire_environment (context j)
            then Some (map fst (os_environ w))
            else preserve_environment (context j)) as [vars|]; [|exact Hnd].
  revert Hnd. generalize (environment j).
  induction (os_environ w) as [|kv host IH]; intros env Hnd; simpl;
    [exact Hnd|].
  apply IH.
  destruct (existsb (String.eqb (fst kv)) vars && negb (env_has (fst kv) env));
    [now apply env_set_distinct|exact Hnd].
Qed.

(** A job that sets [PATH] and [HOME], on a host that has [PATH] and
    [LANG], with [LANG] preserved. *)
Lemma get_envvars_distinct_witness :
  NoDup (map fst (get_envvars Samples.host Samples.with_environment)).
Proof.
  apply (get_envvars_distinct Samples.host Samples.with_environment).
  simpl. repeat constructor; simpl; intuition discriminate.
Defined.

Example get_envvars_sample :
  get_envvars Samples.host Samples.with_environment =
    [("PATH", "/opt/bin"); ("HOME", "/out"); ("LANG", "C.UTF-8");
     ("TMPDIR", "/tmp/job")].
Proof. reflexivity. Qed.

(* ================================================================= *)
(** ** The delay between polls *)

(** X3.  The bounds handed to [random.randint] before the [n]-th attempt
    are the integers nearest to [0.75 n^2] and [2.25 n^2]; the range is
    never empty, and from the first attempt on the delay is at least one
    second. *)
Theorem sleep_bounds n :
  exists lo hi,
    sleep_event n = EvSleep lo hi /\
    (Z.abs (4 * lo - 3 * Z.of_nat n * Z.of_nat n) <= 2)%Z /\
    (Z.abs (4 * hi - 9 * Z.of_nat n * Z.of_nat n) <= 2)%Z /\
    (0 <= lo <= hi)%Z /\
    ((1 <= n)%nat -> (1 <= lo)%Z).
Proof.
  unfold sleep_event, round_quarters.
  set (m := Z.of_nat n).
  assert (Hm : (0 <= m)%Z) by (subst m; lia).
  eexists _, _. split; [reflexivity|].
  pose proof (Z.div_mod (3 * m * m + 2) 4 ltac:(lia)) as H3.
  pose proof (Z.mod_pos_bound (3 * m * m + 2) 4 ltac:(lia)) as B3.
  pose proof (Z.div_mod (9 * m * m + 2) 4 ltac:(lia)) as H9.
  pose proof (Z.mod_pos_bound (9 * m * m + 2) 4 ltac:(lia)) as B9.
  assert (Hsq : (0 <= m * m)%Z) by nia.
  repeat split; lia.
Qed.

(* ================================================================= *)
(** ** What the polling loop keeps *)

Lemma count_cons p (e : event) tr :
  count p (e :: tr) = ((if p e then 1 else 0) + count p tr)%nat.
Proof. unfold count. simpl. now destruct (p e). Qed.

Ltac counting := rewrite ?count_cons; unfold count; simpl.

Lemma is_failure_not_terminal state :
  is_terminal state = false -> is_failure state = false.
Proof. unfold is_failure. now intros ->. Qed.

(** X4.  The loop changes neither the task id nor the collected outputs;
    it calls [get_task] with that id only and counts its calls.  Its trace
    is a sequence of turns, each one sleep followed at once by one poll, the
    sleeps being those of attempts from the current one on, and after the
    turns at most one fetch of the full task: every poll is preceded by a
    sleep of its own, and there is no other sleep. *)
Theorem poll_accounting fuel : forall w h n x h' ev,
  poll fuel w h n = Some (x, h', ev) ->
  h_id h' = h_id h /\
  h_outputs h' = h_outputs h /\
  h_calls h' = (h_calls h + count is_get ev)%nat /\
  count is_sleep ev = count is_poll ev /\
  Forall (fun e => match e with
                   | EvGetTask id _ => id = h_id h
                   | _ => True
                   end) ev /\
  exists tries fetch,
    ev = (flat_map (poll_round (h_id h)) tries ++ fetch)%list /\
    (fetch = [] \/ fetch = [EvGetTask (h_id h) FULL]) /\
    Forall (fun k => (n <= k)%nat) tries.
Proof.
  induction fuel as [|fuel IH]; intros w h n x h' ev; simpl; [discriminate|].
  unfold is_done.
  destruct (is_terminal (h_state h)).
  - destruct (negb (String.eqb (h_state h) "COMPLETE")).
    + destruct (get_task w (h_calls h) (h_id h) FULL);
        intros [= <- <- <-]; counting;
        (repeat split; try lia; try (repeat constructor; fail));
        exists [], [EvGetTask (h_id h) FULL]; repeat split; auto.
    + intros [= <- <- <-]. counting.
      repeat split; try lia; try (constructor; fail).
      exists [], []. repeat split; auto.
  - simpl.
    destruct (get_task w (h_calls h) (h_id h) MINIMAL) as [task|e].
    + destruct (poll fuel w _ n) as [[[x1 h1] ev1]|] eqn:Hp; [|discriminate].
      intros [= <- <- <-].
      destruct (IH _ _ _ _ _ _ Hp)
        as (H1 & H2 & H3 & H4 & H5 & tries & fetch & H6 & H7 & H8).
      simpl in H1, H2, H3, H5, H6, H7. rewrite !count_cons. simpl.
      repeat split; try assumption; try lia.
      * repeat constructor. exact H5.
      * exists (n :: tries)%list, fetch. rewrite H6.
        repeat split; [exact H7|]. constructor; [lia|exact H8].
    + destruct (n <=? max_tries)%nat.
      * destruct (poll fuel w _ (S n)) as [[[x1 h1] ev1]|] eqn:Hp;
          [|discriminate].
        intros [= <- <- <-].
        destruct (IH _ _ _ _ _ _ Hp)
          as (H1 & H2 & H3 & H4 & H5 & tries & fetch & H6 & H7 & H8).
        simpl in H1, H2, H3, H5, H6, H7. rewrite !count_cons. simpl.
        repeat split; try assumption; try lia.
        -- repeat constructor. exact H5.
        -- exists (n :: tries)%list, fetch. rewrite H6.
           repeat split; [exact H7|]. constructor; [lia|].
           eapply Forall_impl; [|exact H8]. simpl. intros k Hk. lia.
      * intros [= <- <- <-]. counting.
        repeat split; try lia; try (repeat constructor; fail).
        exists [n], []. repeat split; auto.
Qed.

(** A loop that is answered [RUNNING] once, then [COMPLETE]. *)
Lemma poll_accounting_witness :
  h_id (mkHandle (Some "task-1") "COMPLETE" None 2) = Some "task-1" /\
  h_outputs (mkHandle (Some "task-1") "COMPLETE" None 2) = None /\
  h_calls (mkHandle (Some "task-1") "COMPLETE" None 2) =
    (0 + count is_get
           [EvSleep 1 2; EvGetTask (Some "task-1") MINIMAL;
            EvSleep 1 2; EvGetTask (Some "task-1") MINIMAL])%nat /\
  count is_sleep
    [EvSleep 1 2; EvGetTask (Some "task-1") MINIMAL;
     EvSleep 1 2; EvGetTask (Some "task-1") MINIMAL] =
  count is_poll
    [EvSleep 1 2; EvGetTask (Some "task-1") MINIMAL;
     EvSleep 1 2; EvGetTask (Some "task-1") MINIMAL] /\
  Forall (fun e => match e with
                   | EvGetTask id _ => id = Some "task-1"
                   | _ => True
                   end)
    [EvSleep 1 2; EvGetTask (Some "task-1") MINIMAL;
     EvSleep 1 2; EvGetTask (Some "task-1") MINIMAL] /\
  exists tries fetch,
    [EvSleep 1 2; EvGetTask (Some "task-1") MINIMAL;
     EvSleep 1 2; EvGetTask (Some "task-1") MINIMAL] =
    (flat_map (poll_round (Some "task-1")) tries ++ fetch)%list /\
    (fetch = [] \/ fetch = [EvGetTask (Some "task-1") FULL]) /\
    Forall (fun k => (1 <= k)%nat) tries.
Proof.
  exact (poll_accounting 3 Samples.running_then_complete
           (initial_handle (Some "task-1")) 1 LoopLeft
           (mkHandle (Some "task-1") "COMPLETE" None 2)
           [EvSleep 1 2; EvGetTask (Some "task-1") MINIMAL;
            EvSleep 1 2; EvGetTask (Some "task-1") MINIMAL]
           eq_refl).
Defined.

(** X5.  How the loop can end.  It is left in a terminal state, or, in a
    state that is not terminal, only once the attempt counter has passed
    [max_tries]: started at 1, after at least eleven polls.  It raises only
    in a terminal state other than [COMPLETE].  The full task is fetched
    once when the state reached is such a state, and never otherwise. *)
Theorem poll_exit fuel : forall w h n x h' ev,
  poll fuel w h n = Some (x, h', ev) ->
  match x with
  | LoopLeft =>
      is_terminal (h_state h') = true \/ (12 <= n + count is_poll ev)%nat
  | LoopRaised _ => is_failure (h_state h') = true
  end /\
  count is_full_fetch ev = if is_failure (h_state h') then 1%nat else 0%nat.
Proof.
  induction fuel as [|fuel IH]; intros w h n x h' ev; simpl; [discriminate|].
  unfold is_done.
  destruct (is_terminal (h_state h)) eqn:Ht.
  - destruct (negb (String.eqb (h_state h) "COMPLETE")) eqn:Hc.
    + destruct (get_task w (h_calls h) (h_id h) FULL);
        intros [= <- <- <-]; unfold is_failure; simpl; rewrite Ht, Hc;
        split; auto.
    + intros [= <- <- <-]. unfold is_failure. simpl. rewrite Ht, Hc.
      split; auto.
  - simpl.
    destruct (get_task w (h_calls h) (h_id h) MINIMAL) as [task|e].
    + destruct (poll fuel w _ n) as [[[x1 h1] ev1]|] eqn:Hp; [|discriminate].
      intros [= <- <- <-].
      destruct (IH _ _ _ _ _ _ Hp) as (H1 & H2).
      rewrite !count_cons. simpl. split; [|exact H2].
      destruct x1; [|exact H1]. destruct H1 as [H1|H1]; [now left|right; lia].
    + destruct (n <=? max_tries)%nat eqn:Hn.
      * destruct (poll fuel w _ (S n)) as [[[x1 h1] ev1]|] eqn:Hp;
          [|discriminate].
        intros [= <- <- <-].
        destruct (IH _ _ _ _ _ _ Hp) as (H1 & H2).
        rewrite !count_cons. simpl. split; [|exact H2].
        destruct x1; [|exact H1].
        destruct H1 as [H1|H1]; [now left|right; lia].
      * intros [= <- <- <-]. simpl.
        rewrite (is_failure_not_terminal _ Ht). split; [|reflexivity].
        right. apply Nat.leb_gt in Hn. unfold max_tries in Hn.
        rewrite !count_cons. simpl. lia.
Qed.

(** A loop whose polls all fail. *)
Lemma poll_exit_witness :
  (is_terminal "UNKNOWN" = true \/
   (12 <= 1 + count is_poll Samples.eleven_polls)%nat) /\
  count is_full_fetch Samples.eleven_polls =
    if is_failure "UNKNOWN" then 1%nat else 0%nat.
Proof.
  exact (poll_exit 11 Samples.unreachable (initial_handle (Some "task-1")) 1
           LoopLeft (mkHandle (Some "task-1") "UNKNOWN" None 11)
           Samples.eleven_polls eq_refl).
Defined.

(** X6.  No timeout: as long as every poll is answered with a state that
    is not terminal, the loop does not end, and neither does [run]. *)
Theorem poll_never_abandons_a_running_task w j task id :
  create_task_msg w j = Val task ->
  create_task w task = Val id ->
  (forall n, exists t,
     get_task w n (Some id) MINIMAL = Val t /\
     is_terminal (ti_state t) = false) ->
  forall fuel, run fuel w j = None.
Proof.
  intros Ht Hc Hrun fuel.
  assert (Hp : forall fuel h n,
            h_id h = Some id -> is_terminal (h_state h) = false ->
            poll fuel w h n = None).
  { clear fuel. induction fuel as [|fuel IH]; intros h n Hid Hs;
      [reflexivity|].
    simpl. unfold is_done. rewrite Hs. simpl. rewrite Hid.
    destruct (Hrun (h_calls h)) as (t & -> & Hnt).
    now rewrite IH. }
  unfold run. rewrite Ht, Hc. now rewrite Hp.
Qed.

(** A service that answers [RUNNING] for ever, polled a thousand times. *)
Lemma poll_never_abandons_witness :
  run 1000 (Samples.service "RUNNING") Samples.echo = None.
Proof.
  refine (poll_never_abandons_a_running_task (Samples.service "RUNNING")
            Samples.echo _ _ eq_refl eq_refl _ 1000).
  intros n. eexists. split; reflexivity.
Defined.

(* ================================================================= *)
(** ** Calls to the service in a run *)

Lemma poll_keeps_handle fuel : forall w h n x h' ev,
  poll fuel w h n = Some (x, h', ev) ->
  h_id h' = h_id h /\ h_outputs h' = h_outputs h.
Proof.
  induction fuel as [|fuel IH]; intros w h n x h' ev; simpl; [discriminate|].
  unfold is_done.
  destruct (is_terminal (h_state h)).
  - destruct (negb (String.eqb (h_state h) "COMPLETE"));
      [destruct (get_task w (h_calls h) (h_id h) FULL)|];
      intros [= <- <- <-]; now split.
  - simpl.
    destruct (get_task w (h_calls h) (h_id h) MINIMAL) as [task|e].
    + destruct (poll fuel w _ n) as [[[x1 h1] ev1]|] eqn:Hp; [|discriminate].
      intros [= <- <- <-]. exact (IH _ _ _ _ _ _ Hp).
    + destruct (n <=? max_tries)%nat.
      * destruct (poll fuel w _ (S n)) as [[[x1 h1] ev1]|] eqn:Hp;
          [|discriminate].
        intros [= <- <- <-]. exact (IH _ _ _ _ _ _ Hp).
      * intros [= <- <- <-]. now split.
Qed.

Lemma poll_fetches fuel : forall w h n x h' ev,
  poll fuel w h n = Some (x, h', ev) ->
  (count is_full_fetch ev <= 1)%nat /\
  (forall id v, In (EvGetTask id v) ev -> id = h_id h).
Proof.
  induction fuel as [|fuel IH]; intros w h n x h' ev; simpl; [discriminate|].
  unfold is_done.
  destruct (is_terminal (h_state h)).
  - destruct (negb (String.eqb (h_state h) "COMPLETE"));
      [destruct (get_task w (h_calls h) (h_id h) FULL)|];
      intros [= <- <- <-]; (split; [counting; lia|]);
      intros id v Hin; simpl in Hin; intuition congruence.
  - simpl.
    destruct (get_task w (h_calls h) (h_id h) MINIMAL) as [task|e].
    + destruct (poll fuel w _ n) as [[[x1 h1] ev1]|] eqn:Hp; [|discriminate].
      intros [= <- <- <-]. destruct (IH _ _ _ _ _ _ Hp) as [H1 H2].
      split; [now rewrite !count_cons|].
      intros id v [Hin|[Hin|Hin]]; [discriminate|congruence|].
      exact (H2 id v Hin).
    + destruct (n <=? max_tries)%nat.
      * destruct (poll fuel w _ (S n)) as [[[x1 h1] ev1]|] eqn:Hp;
          [|discriminate].
        intros [= <- <- <-]. destruct (IH _ _ _ _ _ _ Hp) as [H1 H2].
        split; [now rewrite !count_cons|].
        intros id v [Hin|[Hin|Hin]]; [discriminate|congruence|].
        exact (H2 id v Hin).
      * intros [= <- <- <-]. split; [counting; lia|].
        intros id v [Hin|[Hin|[]]]; [discriminate|congruence].
Qed.

Lemma collect_keeps_id w j h : h_id (snd (fst (collect w j h))) = h_id h.
Proof.
  unfold collect.
  destruct (collect_outputs w (outdir j)) as [outputs|e].
  - destruct (clean_outputs w outputs ([], false)) as [s|e s].
    + destruct (output_callback w _ success);
        [destruct (output_callback w (Some []) permanentFail)|]; reflexivity.
    + now destruct (output_callback w (Some []) permanentFail).
  - now destruct (output_callback w (Some []) permanentFail).
Qed.

Lemma collect_calls_no_service w j h :
  Forall (fun e => is_service_call e = false) (snd (collect w j h)).
Proof.
  destruct (collect_trace w j h) as (r & h' & cbs & -> & Hcbs). simpl.
  constructor; [reflexivity|]. apply Forall_app. split.
  - destruct (collection_fails w j); [subst; now repeat constructor|].
    destruct Hcbs as [o [-> | ->]]; now repeat constructor.
  - apply Forall_forall. intros e He.
    now destruct (cleanup_no_callback _ _ _ _ He).
Qed.

(** X7.  In a run that ends, the task is submitted at most once, the full
    task is fetched at most once, and [get_task] is only called after
    [create_task] has returned an id, and with that id. *)
Theorem run_service_discipline fuel w j x h tr :
  run fuel w j = Some (x, h, tr) ->
  (count is_create tr <= 1)%nat /\
  (count is_full_fetch tr <= 1)%nat /\
  (forall id v,
     In (EvGetTask id v) tr ->
     id = h_id h /\
     exists task i,
       create_task_msg w j = Val task /\
       create_task w task = Val i /\ id = Some i).
Proof.
  pose proof (written_events_are_writes (store_of (get_inputs w j))) as Hw.
  assert (Hw0 : forall p, (forall a b, p (EvWriteFile a b) = false) ->
            count p (written_events (store_of (get_inputs w j))) = 0%nat).
  { intros p Hp. apply (count_none p is_write _ Hw).
    intros [] He; try discriminate. apply Hp. }
  assert (Hwin : forall id v,
            ~ In (EvGetTask id v) (written_events (store_of (get_inputs w j)))).
  { intros id v. exact (Forall_not_In is_write _ (EvGetTask id v) Hw eq_refl). }
  unfold run.
  destruct (create_task_msg w j) as [task|e] eqn:Ht.
  - destruct (create_task w task) as [i|e] eqn:Hc.
    + destruct (poll fuel w (initial_handle (Some i)) 1)
        as [[[[|e] h1] ev]|] eqn:Hp; [| |discriminate].
      * destruct (collect w j h1) as [[x2 h2] ev2] eqn:Hcol.
        intros [= <- <- <-].
        destruct (poll_keeps_handle _ _ _ _ _ _ _ Hp) as [Hid _].
        destruct (poll_fetches _ _ _ _ _ _ _ Hp) as [Hfull Hget].
        pose proof (collect_keeps_id w j h1) as Hid2.
        pose proof (collect_calls_no_service w j h1) as Hns.
        rewrite Hcol in Hid2, Hns. simpl in Hid2, Hns, Hid.
        assert (Hc2 : forall p, (forall e, p e = true -> is_service_call e = true) ->
                  count p ev2 = 0%nat).
        { intros p Hp'.
          apply (count_none p (fun e => negb (is_service_call e))).
          - revert Hns. apply Forall_impl. intros e ->. reflexivity.
          - intros e He. destruct (p e) eqn:Hpe; [|reflexivity].
            now rewrite (Hp' e Hpe) in He. }
        split; [|split].
        -- rewrite !count_app, Hw0 by reflexivity.
           rewrite (count_none is_create is_poll_event ev
                      (poll_events _ _ _ _ _ _ _ Hp)) by (now intros []).
           rewrite Hc2 by (now intros []). reflexivity.
        -- rewrite !count_app, Hw0 by reflexivity.
           rewrite Hc2 by (now intros [| | |? []| | | |]).
           unfold count in *. simpl. lia.
        -- intros id v Hin.
           apply in_app_or in Hin. destruct Hin as [Hin|Hin].
           ++ apply in_app_or in Hin. destruct Hin as [Hin|[Hin|[]]];
                [now apply Hwin in Hin|discriminate].
           ++ apply in_app_or in Hin. destruct Hin as [Hin|Hin].
              ** rewrite (Hget id v Hin). simpl. split; [congruence|].
                 now exists task, i.
              ** rewrite Forall_forall in Hns. now specialize (Hns _ Hin).
      * intros [= <- <- <-].
        destruct (poll_keeps_handle _ _ _ _ _ _ _ Hp) as [Hid _].
        destruct (poll_fetches _ _ _ _ _ _ _ Hp) as [Hfull Hget].
        simpl in Hid.
        split; [|split].
        -- rewrite !count_app, Hw0 by reflexivity.
           rewrite (count_none is_create is_poll_event ev
                      (poll_events _ _ _ _ _ _ _ Hp)) by (now intros []).
           reflexivity.
        -- rewrite !count_app, Hw0 by reflexivity.
           unfold count in *. simpl. lia.
        -- intros id v Hin.
           apply in_app_or in Hin. destruct Hin as [Hin|Hin].
           ++ apply in_app_or in Hin. destruct Hin as [Hin|[Hin|[]]];
                [now apply Hwin in Hin|discriminate].
           ++ rewrite (Hget id v Hin). simpl. split; [congruence|].
              now exists task, i.
    + intros [= <- <- <-]. split; [|split].
      * rewrite count_app, Hw0 by reflexivity. counting. lia.
      * rewrite count_app, Hw0 by reflexivity. counting. lia.
      * intros id v Hin. apply in_app_or in Hin.
        destruct Hin as [Hin|[Hin|[]]]; [now apply Hwin in Hin|discriminate].
  - intros [= <- <- <-]. split; [|split].
    + rewrite Hw0 by reflexivity. lia.
    + rewrite Hw0 by reflexivity. lia.
    + intros id v Hin. now apply Hwin in Hin.
Qed.

(** A run whose task ends in [EXECUTOR_ERROR]. *)
Lemma run_service_discipline_witness :
  let r := run 2 (Samples.service "EXECUTOR_ERROR") Samples.echo in
  (count is_create (Samples.trace_of r) <= 1)%nat /\
  (count is_full_fetch (Samples.trace_of r) <= 1)%nat /\
  (forall id v,
     In (EvGetTask id v) (Samples.trace_of r) ->
     id = Some "task-1" /\
     exists task i,
       create_task_msg (Samples.service "EXECUTOR_ERROR") Samples.echo
         = Val task /\
       create_task (Samples.service "EXECUTOR_ERROR") task = Val i /\
       id = Some i).
Proof.
  exact (run_service_discipline 2 (Samples.service "EXECUTOR_ERROR")
           Samples.echo _ _ _ eq_refl).
Defined.

(* ================================================================= *)
(** ** The callbacks *)

(** X8.  When collection finds no outputs, the success callback is called
    with [None], the value [self.outputs] was given when the task was
    made, and not with an empty mapping. *)
Theorem no_outputs_reported_as_None fuel w j task id h ev :
  create_task_msg w j = Val task ->
  create_task w task = Val id ->
  poll fuel w (initial_handle (Some id)) 1 = Some (LoopLeft, h, ev) ->
  collect_outputs w (outdir j) = Val [] ->
  exists r h' tr,
    run fuel w j = Some (r, h', tr) /\
    In (EvCallback None success) tr /\
    h_outputs h' = None.
Proof.
  intros Ht Hc Hp Hco.
  destruct (poll_keeps_handle _ _ _ _ _ _ _ Hp) as [_ Hout]. simpl in Hout.
  rewrite (run_after_loop _ _ _ _ _ _ _ Ht Hc Hp).
  unfold collect. rewrite Hco. simpl. rewrite Hout.
  destruct (output_callback w None success);
    [destruct (output_callback w (Some []) permanentFail)|];
    (eexists _, _, _; split; [reflexivity|]; split; [|reflexivity]);
    apply in_or_app; right; right; apply in_or_app; right; right; left;
    reflexivity.
Qed.

(** The [echo] job, whose collection finds nothing. *)
Lemma no_outputs_reported_as_None_witness :
  exists r h' tr,
    run 2 (Samples.service "COMPLETE") Samples.echo = Some (r, h', tr) /\
    In (EvCallback None success) tr /\
    h_outputs h' = None.
Proof.
  eapply (no_outputs_reported_as_None 2 (Samples.service "COMPLETE")
            Samples.echo); reflexivity.
Defined.

(** X9.  When collection succeeds and the success callback raises, the
    failure callback is called as well, with an empty mapping, and cleanup
    follows; the block returns if the failure callback does, and raises what
    the failure callback raises otherwise. *)
Theorem both_callbacks_when_success_raises w j h outputs s e :
  collect_outputs w (outdir j) = Val outputs ->
  clean_outputs w outputs ([], false) = Ok s ->
  output_callback w
    (match outputs_field s with Some o => Some o | None => h_outputs h end)
    success = Some e ->
  let o := match outputs_field s with
           | Some o => Some o
           | None => h_outputs h
           end in
  collect w j h =
    (match output_callback w (Some []) permanentFail with
     | None => Returned
     | Some e' => Raised e'
     end,
     mkHandle (h_id h) (h_state h) o (h_calls h),
     ([EvCollect (outdir j); EvCallback o success;
       EvCallback (Some []) permanentFail] ++
      cleanup w j (rm_tmpdir (context j)))%list).
Proof.
  intros Hco Hcl Hcb o. unfold collect. rewrite Hco, Hcl. fold o.
  fold o in Hcb. rewrite Hcb.
  now destruct (output_callback w (Some []) permanentFail).
Qed.

(** An engine whose callback rejects a success. *)
Lemma both_callbacks_witness :
  collect Samples.rejecting_success Samples.echo
    (mkHandle (Some "task-1") "COMPLETE" None 1) =
    (Returned, mkHandle (Some "task-1") "COMPLETE" None 1,
     [EvCollect "/out"; EvCallback None success;
      EvCallback (Some []) permanentFail; EvCleanup false; EvRmtree "/stage"]).
Proof.
  exact (both_callbacks_when_success_raises Samples.rejecting_success
           Samples.echo (mkHandle (Some "task-1") "COMPLETE" None 1)
           [] ([], false) (OtherException "rejected")
           eq_refl eq_refl eq_refl).
Defined.

(** X10.  The final block raises only what the failure callback raised;
    whatever it does, it ends with cleanup. *)
Theorem collect_raises_only_the_failure_callback w j h r h' ev :
  collect w j h = (r, h', ev) ->
  (forall e, r = Raised e ->
     output_callback w (Some []) permanentFail = Some e /\
     In (EvCallback (Some []) permanentFail) ev) /\
  exists pre, ev = (pre ++ cleanup w j (rm_tmpdir (context j)))%list.
Proof.
  unfold collect.
  destruct (collect_outputs w (outdir j)) as [outputs|e0].
  - destruct (clean_outputs w outputs ([], false)) as [s|e0 s].
    + destruct (output_callback w _ success) as [es|] eqn:Hs.
      * destruct (output_callback w (Some []) permanentFail) as [ef|] eqn:Hf;
          intros [= <- <- <-]; (split; [|eexists [_; _; _]; reflexivity]);
          intros e' He'; try discriminate; injection He' as <-;
          (split; [reflexivity|simpl; auto 6]).
      * intros [= <- <- <-]. split; [intros e' He'; discriminate|].
        eexists [_; _]; reflexivity.
    + destruct (output_callback w (Some []) permanentFail) as [ef|] eqn:Hf;
        intros [= <- <- <-]; (split; [|eexists [_; _]; reflexivity]);
        intros e' He'; try discriminate; injection He' as <-;
        (split; [reflexivity|simpl; auto 6]).
  - destruct (output_callback w (Some []) permanentFail) as [ef|] eqn:Hf;
      intros [= <- <- <-]; (split; [|eexists [_; _]; reflexivity]);
      intros e' He'; try discriminate; injection He' as <-;
      (split; [reflexivity|simpl; auto 6]).
Qed.

(** An engine whose callback rejects everything, after a collection that
    failed. *)
Lemma collect_raises_witness :
  (forall e, Raised (OtherException "rejected") = Raised e ->
     output_callback Samples.rejecting_all (Some []) permanentFail = Some e /\
     In (EvCallback (Some []) permanentFail)
       [EvCollect "/out"; EvCallback (Some []) permanentFail;
        EvCleanup false; EvRmtree "/stage"]) /\
  exists pre,
    [EvCollect "/out"; EvCallback (Some []) permanentFail;
     EvCleanup false; EvRmtree "/stage"] =
    (pre ++ cleanup Samples.rejecting_all Samples.echo
              (rm_tmpdir (context Samples.echo)))%list.
Proof.
  exact (collect_raises_only_the_failure_callback Samples.rejecting_all
           Samples.echo (mkHandle (Some "task-1") "SYSTEM_ERROR" None 2)
           (Raised (OtherException "rejected"))
           (mkHandle (Some "task-1") "SYSTEM_ERROR" None 2)
           [EvCollect "/out"; EvCallback (Some []) permanentFail;
            EvCleanup false; EvRmtree "/stage"]
           eq_refl).
Defined.

(* ================================================================= *)
(** ** What cleanup removes *)

(** X11.  Cleanup removes the staging directory when one is set, is not
    the empty path and exists, the temporary directory when the caller asked
    for it, and nothing else. *)
Theorem cleanup_removes w j rm p :
  In (EvRmtree p) (cleanup w j rm) <->
  (stagedir j = Some p /\ p <> "" /\ path_exists w p = true) \/
  (rm = true /\ p = tmpdir j).
Proof.
  unfold cleanup. split.
  - intros [Hin|Hin]; [discriminate|].
    apply in_app_or in Hin. destruct Hin as [Hin|Hin].
    + left. destruct (stagedir j) as [[|c r]|]; simpl in Hin; try tauto.
      destruct (path_exists w (String c r)) eqn:Hex; simpl in Hin; [|tauto].
      destruct Hin as [[= <-]|[]]. repeat split; [discriminate|exact Hex].
    + right. destruct rm; simpl in Hin; [|tauto].
      destruct Hin as [[= <-]|[]]. now split.
  - intros [(Hs & Hne & Hex)|(-> & ->)]; right; apply in_or_app.
    + left. rewrite Hs. destruct p as [|c r]; [now contradiction Hne|].
      rewrite Hex. now left.
    + right. now left.
Qed.

(* ================================================================= *)
(** ** The normalised outputs *)

Lemma dict_set_keys k v d x :
  In x (map fst (dict_set k v d)) <-> x = k \/ In x (map fst d).
Proof.
  induction d as [|[k' v'] d IH]; simpl.
  - intuition.
  - destruct (String.eqb k' k) eqn:Hk; simpl.
    + apply String.eqb_eq in Hk. subst k'. intuition.
    + rewrite IH. intuition.
Qed.

Lemma dict_set_distinct k v d :
  NoDup (map fst d) -> NoDup (map fst (dict_set k v d)).
Proof.
  induction d as [|[k' v'] d IH]; simpl; intros Hnd.
  - constructor; [intros []|constructor].
  - inversion Hnd as [|? ? Hnot Hrest]; subst.
    destruct (String.eqb k' k) eqn:Hk; simpl.
    + apply String.eqb_eq in Hk. subst k'. now constructor.
    + constructor; [|now apply IH].
      rewrite dict_set_keys. intros [->|Hin]; [|contradiction].
      now rewrite String.eqb_refl in Hk.
Qed.

Lemma dict_set_values (P : pyval -> Prop) k v d :
  P v -> Forall (fun kv => P (snd kv)) d ->
  Forall (fun kv => P (snd kv)) (dict_set k v d).
Proof.
  intros Hv. induction 1 as [|[k' v'] d Hx Hd IH]; simpl.
  - now repeat constructor.
  - destruct (String.eqb k' k); constructor; auto.
Qed.

Lemma dict_set_length k v d :
  (List.length (dict_set k v d) <= S (List.length d))%nat.
Proof.
  induction d as [|[k' v'] d IH]; simpl; [lia|].
  destruct (String.eqb k' k); simpl; lia.
Qed.

Lemma clean_outputs_keeps w outputs : forall acc b d b',
  clean_outputs w outputs (acc, b) = Ok (d, b') ->
  (NoDup (map fst acc) -> NoDup (map fst d)) /\
  (Forall (fun kv => is_bytes (snd kv) = false) acc ->
   Forall (fun kv => is_bytes (snd kv) = false) d) /\
  (List.length d <= List.length acc + List.length outputs)%nat /\
  b' = (b || match outputs with [] => false | _ => true end).
Proof.
  induction outputs as [|[k v] outputs IH]; intros acc b d b'; simpl.
  - intros [= <- <-]. rewrite orb_false_r. repeat split; auto; lia.
  - destruct (match k with KBytes x => decode w x | KStr t => Val t end)
      as [k'|e]; simpl; [|discriminate].
    destruct (match v with
              | PBytes x => let? t := decode w x in Val (PStr t)
              | _ => Val v
              end) as [v'|e] eqn:Hv; simpl; [|discriminate].
    intros Hrec. destruct (IH _ _ _ _ Hrec) as (H1 & H2 & H3 & H4).
    assert (Hnb : is_bytes v' = false).
    { destruct v as [|x|x|x|x|bs|x|x]; simpl in Hv;
        try (injection Hv as <-; reflexivity).
      destruct (decode w bs); simpl in Hv; [|discriminate].
      now injection Hv as <-. }
    pose proof (dict_set_length k' v' acc).
    repeat split.
    + intros Hnd. apply H1. now apply dict_set_distinct.
    + intros Hall. apply H2.
      exact (dict_set_values (fun x => is_bytes x = false) k' v' acc Hnb Hall).
    + lia.
    + rewrite H4. now rewrite !orb_true_r.
Qed.

(** X12.  What the normalising loop returns is a mapping with distinct
    text keys, no value of which is bytes, with at most as many entries as
    were collected; [self.outputs] has been bound to it exactly when
    something was collected. *)
Theorem clean_outputs_normalised w outputs d b :
  clean_outputs w outputs ([], false) = Ok (d, b) ->
  NoDup (map fst d) /\
  Forall (fun kv => is_bytes (snd kv) = false) d /\
  (List.length d <= List.length outputs)%nat /\
  b = match outputs with [] => false | _ => true end.
Proof.
  intros H. destruct (clean_outputs_keeps _ _ _ _ _ _ H) as (H1 & H2 & H3 & H4).
  repeat split.
  - apply H1. constructor.
  - apply H2. constructor.
  - exact H3.
  - exact H4.
Qed.

(** Two outputs under the same name, one keyed in bytes, and a value in
    bytes. *)
Lemma clean_outputs_normalised_witness :
  NoDup (map fst [("out", PStr "second")]) /\
  Forall (fun kv => is_bytes (snd kv) = false) [("out", PStr "second")] /\
  (List.length [("out", PStr "second")] <=
   List.length [(KStr "out", PInt 1); (KBytes "out", PBytes "second")])%nat /\
  true = true.
Proof.
  exact (clean_outputs_normalised (Samples.service "COMPLETE")
           [(KStr "out", PInt 1); (KBytes "out", PBytes "second")]
           [("out", PStr "second")] true eq_refl).
Defined.

(* ================================================================= *)
(** ** Descriptors of the job order *)

(** What [tes.Input] accepts, and what it then holds. *)
Lemma new_Input_accepts name description url path content type p :
  Tes.new_Input name description url path content type = Val p <->
  Tes.optional_text url = true /\
  Tes.optional_text (Some path) = true /\
  Tes.optional_text content = true /\
  exists t,
    type = PStr t /\ Tes.is_file_type t = true /\
    p = Tes.mkInput name description url path content t.
Proof.
  unfold Tes.new_Input.
  destruct (Tes.optional_text url); cbn [negb];
    [|split; [discriminate|now intros [? _]]].
  destruct (Tes.optional_text (Some path)); cbn [negb];
    [|split; [discriminate|now intros (_ & ? & _)]].
  destruct type as [| | | |t| | |];
    try (split; [discriminate|now intros (_ & _ & _ & ? & ? & _)]).
  destruct (Tes.is_file_type t) eqn:Ht.
  - destruct (Tes.optional_text content).
    + split.
      * intros [= <-]. repeat split. now exists t.
      * intros (_ & _ & _ & t' & [= <-] & _ & ->). reflexivity.
    + split; [discriminate|now intros (_ & _ & ? & _)].
  - split; [discriminate|].
    intros (_ & _ & _ & t' & [= <-] & Ht' & _). congruence.
Qed.

Lemma upper_of_text cls t :
  upper_of cls = Val (PStr t) -> exists c, cls = PStr c /\ t = upper c.
Proof.
  destruct cls; simpl; try discriminate. intros [= <-]. now eexists.
Qed.

Lemma create_input_described name d p :
  create_input name d = Val p ->
  Tes.in_name p = name /\
  job_order_descriptor p /\
  Tes.in_content p = dict_get "contents" d /\
  Tes.in_url p = (if dict_has "contents" d then None else dict_get "location" d) /\
  dict_get "path" d = Some (Tes.in_path p) /\
  exists c, dict_get "class" d = Some (PStr c) /\ Tes.in_type p = upper c.
Proof.
  unfold create_input, job_order_descriptor.
  destruct (dict_has "contents" d) eqn:Hc;
    unfold dict_has, subscript in *;
    destruct (dict_get "location" d) as [l|];
    destruct (dict_get "path" d) as [path|];
    destruct (dict_get "contents" d) as [contents|]; try discriminate;
    destruct (dict_get "class" d) as [cls|]; simpl; try discriminate;
    (destruct (upper_of cls) as [type|] eqn:Hu; simpl; [|discriminate]);
    intros H; apply new_Input_accepts in H;
    destruct H as (_ & _ & _ & t & -> & _ & ->);
    destruct (upper_of_text _ _ Hu) as (c & -> & ->); simpl;
    (repeat split; try reflexivity; try (eexists; split; reflexivity);
     try (intros H; try discriminate; congruence)).
Qed.

Lemma typed_input_accepts name description url path content cls :
  (exists p,
     (let? type := upper_of cls in
      Tes.new_Input name description url path content type) = Val p) <->
  Tes.optional_text url = true /\
  Tes.optional_text (Some path) = true /\
  Tes.optional_text content = true /\
  exists c, cls = PStr c /\ Tes.is_file_type (upper c) = true.
Proof.
  split.
  - intros [p H].
    destruct (upper_of cls) as [type|] eqn:Hu; simpl in H; [|discriminate].
    apply new_Input_accepts in H.
    destruct H as (H1 & H2 & H3 & t & -> & Ht & _).
    destruct (upper_of_text _ _ Hu) as (c & -> & ->).
    repeat split; try assumption. now exists c.
  - intros (H1 & H2 & H3 & c & -> & Ht). simpl.
    eexists. apply new_Input_accepts.
    repeat split; try assumption. eexists. repeat split. exact Ht.
Qed.

(** X13.  For a mapping whose class, if it is text, is written in ASCII:
    [create_input] returns a descriptor exactly when the mapping has a
    [path] that is text or [None], a class that is text and reads [FILE] or
    [DIRECTORY] in capitals, and a source that is text or [None]: its
    [contents] if it has any (its location is then not looked at), its
    location otherwise.  In every other case it raises. *)
Theorem create_input_succeeds name d :
  ascii_class d = true ->
  ((exists p, create_input name d = Val p) <->
   (exists path,
      dict_get "path" d = Some path /\
      Tes.optional_text (Some path) = true) /\
   (exists c,
      dict_get "class" d = Some (PStr c) /\
      Tes.is_file_type (upper c) = true) /\
   match dict_get "contents" d with
   | Some contents => Tes.optional_text (Some contents) = true
   | None =>
       exists location,
         dict_get "location" d = Some location /\
         Tes.optional_text (Some location) = true
   end).
Proof.
  intros _. unfold create_input, dict_has, subscript.
  destruct (dict_get "contents" d) as [contents|].
  - destruct (dict_get "path" d) as [path|]; cbn [bind];
      [|split; [now intros [? ?]|now intros [[? [? _]] _]]].
    destruct (dict_get "class" d) as [cls|]; cbn [bind];
      [|split; [now intros [? ?]|now intros (_ & [? [? _]] & _)]].
    rewrite typed_input_accepts. split.
    + intros (_ & Hp & Hc & c & -> & Ht).
      split; [now exists path|]. split; [now exists c|exact Hc].
    + intros ([path' [[= <-] Hp]] & [c [[= ->] Ht]] & Hc).
      repeat split; try assumption. now exists c.
  - destruct (dict_get "location" d) as [location|]; cbn [bind];
      [|split; [now intros [? ?]|now intros (_ & _ & [? [? _]])]].
    destruct (dict_get "path" d) as [path|]; cbn [bind];
      [|split; [now intros [? ?]|now intros [[? [? _]] _]]].
    destruct (dict_get "class" d) as [cls|]; cbn [bind];
      [|split; [now intros [? ?]|now intros (_ & [? [? _]] & _)]].
    rewrite typed_input_accepts. split.
    + intros (Hl & Hp & _ & c & -> & Ht).
      split; [now exists path|]. split; [now exists c|]. now exists location.
    + intros ([path' [[= <-] Hp]] & [c [[= ->] Ht]] & [l [[= <-] Hl]]).
      repeat split; try assumption. now exists c.
Qed.

(** A file literal has a descriptor. *)
Lemma create_input_succeeds_witness :
  (exists p, create_input "message" Samples.literal = Val p) <->
  (exists path,
     dict_get "path" Samples.literal = Some path /\
     Tes.optional_text (Some path) = true) /\
  (exists c,
     dict_get "class" Samples.literal = Some (PStr c) /\
     Tes.is_file_type (upper c) = true) /\
  match dict_get "contents" Samples.literal with
  | Some contents => Tes.optional_text (Some contents) = true
  | None =>
      exists location,
        dict_get "location" Samples.literal = Some location /\
        Tes.optional_text (Some location) = true
  end.
Proof.
  exact (create_input_succeeds "message" Samples.literal eq_refl).
Defined.



(* ================================================================= *)
(** ** The inputs only grow *)

Lemma appends_ok s : appends (Ok s) s.
Proof. exists []. simpl. now rewrite grown_nil. Qed.

Lemma appends_raise e s : appends (Raise e s) s.
Proof. exists []. simpl. now rewrite grown_nil. Qed.

Lemma appends_seq r k s :
  appends r s -> (forall s1, appends (k s1) s1) -> appends (seq r k) s.
Proof.
  intros (ins & Hr & Hall) Hk. destruct r as [s1|e s1]; simpl in *.
  - destruct (Hk s1) as (ins2 & Hk2 & Hall2). subst s1.
    exists (ins ++ ins2)%list. rewrite Hk2, grown_grown.
    split; [reflexivity|]. apply Forall_app. now split.
  - now exists ins.
Qed.

Lemma appends_after s p r :
  job_order_descriptor p -> appends r (append_input p s) -> appends r s.
Proof.
  intros Hp (ins & Hr & Hall). exists (p :: ins)%list. split.
  - rewrite Hr. unfold grown, append_input. simpl. now rewrite <- app_assoc.
  - now constructor.
Qed.

Lemma appends_items d :
  Forall (fun kv => forall k s, appends (parse_job_order k (snd kv) s) s) d ->
  forall s, appends (walk_items parse_job_order d s) s.
Proof.
  induction 1 as [|[sk sv] d Hsv _ IH]; intros s; simpl.
  - apply appends_ok.
  - destruct (is_dict sv); [|apply appends_ok].
    apply appends_seq; [apply Hsv|exact IH].
Qed.

Lemma appends_list k l :
  Forall (fun x => forall k s, appends (parse_job_order k x s) s) l ->
  forall i s, appends (walk_list parse_job_order k i l s) s.
Proof.
  induction 1 as [|x l Hx _ IH]; intros i s; cbn [walk_list].
  - apply appends_ok.
  - destruct (is_dict x); [|apply appends_ok].
    apply appends_seq; [apply Hx|apply IH].
Qed.

Lemma appends_files fs :
  Forall (fun x => forall k s, appends (parse_job_order k x s) s) fs ->
  forall s, appends (walk_files parse_job_order fs s) s.
Proof.
  induction 1 as [|f fs Hf _ IH]; intros s; simpl.
  - apply appends_ok.
  - apply appends_seq; [|exact IH].
    destruct (basename_of f); simpl; [apply Hf|apply appends_raise].
Qed.

Lemma appends_everywhere v :
  (forall k s, appends (parse_job_order k v s) s) /\
  match v with
  | PList l => Forall (fun x => forall k s, appends (parse_job_order k x s) s) l
  | _ => True
  end.
Proof.
  induction v as [|b|z|f|t|t|l IH|d IH] using pyval_tree_ind;
    try (split; [|exact I]; intros k s; apply appends_ok).
  - assert (Hl : Forall (fun x => forall k s,
                           appends (parse_job_order k x s) s) l).
    { apply Forall_forall. intros x Hx. rewrite Forall_forall in IH.
      exact (proj1 (IH x Hx)). }
    split; [|exact Hl]. intros k s. simpl. apply (appends_list k l Hl).
  - split; [|exact I]. intros k s. simpl.
    destruct (is_reference d).
    + destruct (create_input k d) as [p|e] eqn:Hp; simpl;
        [|apply appends_raise].
      destruct (create_input_described _ _ _ Hp) as (_ & Hdesc & _).
      apply (appends_after s p _ Hdesc).
      rewrite if_key_get.
      destruct (dict_get "secondaryFiles" d) as [sf|] eqn:Hsf;
        [|apply appends_ok].
      destruct sf as [|x|x|x|[|c x]|[|c x]|fs|[|kv x]]; simpl;
        try apply appends_ok; try apply appends_raise.
      apply appends_files. rewrite Forall_forall in IH.
      exact (proj2 (IH _ (dict_get_In _ _ _ Hsf))).
    + apply appends_items. apply Forall_forall. intros x Hx.
      rewrite Forall_forall in IH. exact (proj1 (IH x Hx)).
Qed.


Lemma parse_job_orders_appends jo : forall s,
  appends (parse_job_orders jo s) s.
Proof.
  induction jo as [|[k v] jo IH]; intros s; simpl.
  - apply appends_ok.
  - apply appends_seq; [apply (proj1 (appends_everywhere v))|exact IH].
Qed.

(* ================================================================= *)
(** ** Descriptors of the listing, and the order of the inputs *)

Lemma dict_has_get k d :
  dict_has k d = match dict_get k d with Some _ => true | None => false end.
Proof. reflexivity. Qed.

Lemma parse_listing_item_shape w j item s s' :
  parse_listing_item w j item s = Ok s' ->
  exists p,
    st_inputs s' = (st_inputs s ++ [p])%list /\
    listing_descriptor w j p item /\
    st_written s' = (st_written s ++ listing_writes j [item])%list.
Proof.
  unfold parse_listing_item, listing_descriptor.
  destruct (dict_has "writable" item); [discriminate|].
  rewrite !dict_has_get. simpl listing_writes. unfold subscript.
  destruct (dict_get "contents" item) as [c|].
  - destruct (dict_get "basename" item) as [[| | | |b| | |]|];
      simpl; try discriminate.
    destruct (fs_write w (join (tmpdir j) b) c); [discriminate|].
    destruct (dict_get "class" item) as [cls|]; simpl; [|discriminate].
    destruct (upper_of cls) as [type|]; simpl; [|discriminate].
    destruct (Tes.new_Input _ _ _ _ _ _) as [p|] eqn:Hp; simpl;
      [|discriminate].
    apply new_Input_accepts in Hp.
    destruct Hp as (_ & _ & _ & t & _ & _ & ->).
    intros [= <-]. eexists. simpl. repeat split; reflexivity.
  - destruct (dict_get "location" item) as [loc|]; simpl; [|discriminate].
    destruct (dict_get "basename" item) as [b|]; simpl; [|discriminate].
    destruct loc as [| | | |loc| | |]; simpl; try discriminate.
    destruct b as [| | | |b| | |]; simpl; try discriminate.
    destruct (dict_get "class" item) as [cls|]; simpl; [|discriminate].
    destruct (upper_of cls) as [type|]; simpl; [|discriminate].
    destruct (Tes.new_Input _ _ _ _ _ _) as [p|] eqn:Hp; simpl;
      [|discriminate].
    apply new_Input_accepts in Hp.
    destruct Hp as (_ & _ & _ & t & _ & _ & ->).
    intros [= <-]. eexists. simpl. rewrite app_nil_r.
    repeat split; reflexivity.
Qed.

Lemma listing_writes_app j a b :
  listing_writes j (a ++ b)%list = (listing_writes j a ++ listing_writes j b)%list.
Proof.
  induction a as [|item a IH]; simpl; [reflexivity|].
  destruct (dict_get "contents" item); [|exact IH].
  destruct (dict_get "basename" item) as [[]|]; try exact IH.
  simpl. now rewrite IH.
Qed.

Lemma parse_listing_shape w j listing : forall s s',
  parse_listing w j listing s = Ok s' ->
  exists ins,
    st_inputs s' = (st_inputs s ++ ins)%list /\
    Forall2 (listing_descriptor w j) ins listing /\
    st_written s' = (st_written s ++ listing_writes j listing)%list.
Proof.
  induction listing as [|item listing IH]; intros s s';
    cbn [parse_listing].
  - intros [= <-]. exists []. simpl. rewrite !app_nil_r. repeat split.
    constructor.
  - destruct (parse_listing_item w j item s) as [s1|e s1] eqn:Hitem;
      cbn [seq]; [|discriminate].
    intros Hrest.
    destruct (parse_listing_item_shape _ _ _ _ _ Hitem) as (p & Hi & Hd & Hw).
    destruct (IH _ _ Hrest) as (ins & Hi' & Hd' & Hw').
    exists (p :: ins)%list. repeat split.
    + rewrite Hi', Hi, <- app_assoc. reflexivity.
    + now constructor.
    + rewrite Hw', Hw. change (item :: listing) with ([item] ++ listing)%list.
      rewrite (listing_writes_app j [item] listing), <- app_assoc.
      reflexivity.
Qed.

(** X16.  When the inputs resolve, the descriptors of the job order come
    first and are followed by one descriptor for each entry of the listing,
    in order: it has the entry's [basename], lands under the working
    directory by that name, carries no inline content, and is fetched from
    the entry's location or, for an entry with [contents], from the copy
    written to the temporary directory.  Those copies are the only files
    written. *)
Theorem get_inputs_order w j st :
  get_inputs w j = Ok st ->
  exists s0 ins,
    parse_job_orders (joborder j) (mkStore [] []) = Ok s0 /\
    Forall job_order_descriptor (st_inputs s0) /\
    st_inputs st = (st_inputs s0 ++ ins)%list /\
    Forall2 (listing_descriptor w j) ins (generatefiles_listing j) /\
    st_written st = listing_writes j (generatefiles_listing j).
Proof.
  unfold get_inputs.
  destruct (parse_job_orders_appends (joborder j) (mkStore [] []))
    as (ins0 & Hs0 & Hall0).
  destruct (parse_job_orders (joborder j) (mkStore [] [])) as [s0|e s0];
    simpl; [|discriminate].
  intros Hl. simpl in Hs0. subst s0.
  destruct (parse_listing_shape _ _ _ _ _ Hl) as (ins & Hi & Hd & Hw).
  exists (grown (mkStore [] []) ins0), ins.
  repeat split; auto.
Qed.

(** A job with one input file and a listing of a staged file and a
    generated script. *)
Lemma get_inputs_order_witness :
  exists s0 ins,
    parse_job_orders (joborder Samples.staged_and_generated) (mkStore [] [])
      = Ok s0 /\
    Forall job_order_descriptor (st_inputs s0) /\
    map Tes.in_name (st_inputs s0 ++ ins)%list = ["reads"; "a.txt"; "run.sh"] /\
    Forall2 (listing_descriptor (Samples.service "COMPLETE")
               Samples.staged_and_generated)
      ins (generatefiles_listing Samples.staged_and_generated) /\
    [("/tmp/job/run.sh", PStr "echo hello")] =
      listing_writes Samples.staged_and_generated
        (generatefiles_listing Samples.staged_and_generated).
Proof.
  destruct (get_inputs_order (Samples.service "COMPLETE")
              Samples.staged_and_generated _ eq_refl)
    as (s0 & ins & H0 & H1 & H2 & H3 & H4).
  exists s0, ins. repeat split; auto.
  now rewrite <- H2.
Defined.

(* ================================================================= *)
(** ** Incomplete resource requirements *)


Lemma accepted_step w j i c c' :
  requirement_step w j i c = Val c' -> rejected_request i = false.
Proof.
  unfold rejected_request, requirement_step.
  destruct (is_ResourceRequirement i); [|reflexivity]. simpl.
  now destruct (unusable (selected_cores i) || unusable (selected_ram i) ||
                unusable (selected_disk i)).
Qed.




Lemma requirements_loop_accepts w j reqs : forall c c',
  requirements_loop w j reqs c = Val c' ->
  forallb (fun i => negb (rejected_request i)) reqs = true.
Proof.
  induction reqs as [|i reqs IH]; intros c c'; simpl; [reflexivity|].
  destruct (requirement_step w j i c) as [c1|e] eqn:Hstep; simpl;
    [|discriminate].
  intros Hloop. rewrite (accepted_step _ _ _ _ _ Hstep). simpl.
  exact (IH _ _ Hloop).
Qed.

(** X18.  The resource claim of a task is all or nothing: with no
    [ResourceRequirement] among the builder's requirements the three fields
    are unset; otherwise every such requirement gives all three bounds, none
    as text, and the three fields are set, the cores to the selected bound
    of the last one. *)
Theorem resources_all_or_nothing w j t :
  create_task_msg w j = Val t ->
  forallb (fun i => negb (rejected_request i)) (builder_requirements j) = true /\
  match find_last is_ResourceRequirement (builder_requirements j) with
  | None => Tes.resources t = Tes.mkResources None None None
  | Some i =>
      exists r d,
        Tes.resources t = Tes.mkResources (Some (selected_cores i)) (Some r)
                            (Some d)
  end.
Proof.
  intros Ht.
  destruct (create_task_msg_claim _ _ _ Ht)
    as (st & c & _ & Hloop & _ & _ & Hres & _).
  split; [exact (requirements_loop_accepts _ _ _ _ _ Hloop)|].
  pose proof (requirements_loop_resources _ _ _ _ _ Hloop) as H.
  destruct (find_last is_ResourceRequirement (builder_requirements j)) as [i|].
  - destruct H as (r & d & _ & _ & Hc & Hr & Hd).
    eexists _, _. now rewrite Hres, Hc, Hr, Hd.
  - destruct H as (Hc & Hr & Hd). simpl in *. now rewrite Hres, Hc, Hr, Hd.
Qed.

(** The [echo] job, which has no requirement. *)
Lemma resources_all_or_nothing_witness :
  exists t,
    create_task_msg (Samples.service "COMPLETE") Samples.echo = Val t /\
    Tes.resources t = Tes.mkResources None None None.
Proof.
  eexists. split; [reflexivity|].
  exact (proj2 (resources_all_or_nothing (Samples.service "COMPLETE")
                  Samples.echo _ eq_refl)).
Defined.

(* ================================================================= *)
(** ** Hints and requirements of the tool *)

(** X19.  A [DockerRequirement] among the hints of the tool overrides
    those among its requirements: the image is the one the last
    [DockerRequirement] of the hints determines. *)
Theorem hints_override_requirements j i :
  find_last is_DockerRequirement
    (match spec_hints (spec j) with Some l => l | None => [] end) = Some i ->
  get_container j =
    get_default "dockerPull" i
      (get_default "dockerImageId" i (PStr fallback_image)).
Proof.
  intros Hi. unfold get_container. cbv zeta.
  now rewrite image_loop, find_last_app, Hi.
Qed.

(** A tool that requires one image and hints at another. *)
Lemma hints_override_requirements_witness :
  get_container Samples.two_images = PStr "alpine:3".
Proof.
  exact (hints_override_requirements Samples.two_images
           [("class", PStr "DockerRequirement"); ("dockerPull", PStr "alpine:3")]
           eq_refl).
Defined.

(* ================================================================= *)
(** ** Paths of the standard streams *)

Lemma basename_from_slashless q : forall acc,
  no_slash q = true -> basename_from acc q = acc ++ q.
Proof.
  induction q as [|c q IH]; intros acc; simpl.
  - intros _. induction acc as [|a acc IHa]; simpl; [reflexivity|].
    now rewrite <- IHa.
  - destruct (Ascii.eqb c "/"%char); [discriminate|]. simpl. intros Hq.
    rewrite (IH _ Hq).
    induction acc as [|a acc IHa]; simpl; [reflexivity|]. now rewrite IHa.
Qed.

Lemma no_slash_app a b :
  no_slash a = true -> no_slash b = true -> no_slash (a ++ b) = true.
Proof.
  intros Ha Hb. induction a as [|c a IH]; simpl in *; [exact Hb|].
  apply andb_prop in Ha. destruct Ha as [Hc Ha]. now rewrite Hc, IH.
Qed.

Lemma basename_from_no_slash s : forall acc,
  no_slash acc = true -> no_slash (basename_from acc s) = true.
Proof.
  induction s as [|c s IH]; intros acc Hacc; simpl; [exact Hacc|].
  destruct (Ascii.eqb c "/"%char) eqn:Hc; [now apply IH|].
  apply IH. apply no_slash_app; [exact Hacc|]. simpl. now rewrite Hc.
Qed.

(** X20.  Where a declared stream goes.  In the container the declared
    path is kept below the working directory, unless it is absolute, and
    then it is used as it is.  The local url keeps the last component of
    the path alone, directly in the output directory: directories of the
    declared path are dropped. *)
Theorem stream_paths w j p :
  output2path (Some p) =
    Some (if starts_with_slash p then p else "/var/spool/cwl/" ++ p) /\
  output2url w j (Some p) = output2url w j (Some (basename p)) /\
  no_slash (basename p) = true.
Proof.
  assert (Hns : no_slash (basename p) = true)
    by (apply basename_from_no_slash; reflexivity).
  split; [|split; [|exact Hns]].
  - unfold output2path, join. now destruct (starts_with_slash p).
  - unfold output2url. do 3 f_equal. unfold basename at 2.
    now rewrite (basename_from_slashless _ "" Hns).
Qed.

(* ================================================================= *)
(** ** A listing entry that raises *)

Lemma parse_listing_item_raise w j item s e s' :
  parse_listing_item w j item s = Raise e s' -> st_inputs s' = st_inputs s.
Proof.
  unfold parse_listing_item.
  destruct (dict_has "writable" item); [now intros [= _ <-]|].
  unfold subscript.
  destruct (dict_has "contents" item).
  - destruct (dict_get "basename" item) as [[| | | |b| | |]|];
      simpl; try (now intros [= _ <-]).
    destruct (dict_get "contents" item) as [c|];
      simpl; try (now intros [= _ <-]).
    destruct (fs_write w (join (tmpdir j) b) c); [now intros [= _ <-]|].
    destruct (dict_get "class" item) as [cls|];
      simpl; try (now intros [= _ <-]).
    destruct (upper_of cls) as [type|]; simpl; try (now intros [= _ <-]).
    destruct (Tes.new_Input _ _ _ _ _ _); simpl; [discriminate|].
    now intros [= _ <-].
  - destruct (dict_get "location" item) as [loc|];
      simpl; try (now intros [= _ <-]).
    destruct (dict_get "basename" item) as [b|];
      simpl; try (now intros [= _ <-]).
    destruct (file_uri_of w loc); simpl; try (now intros [= _ <-]).
    destruct (as_text b); simpl; try (now intros [= _ <-]).
    destruct (dict_get "class" item) as [cls|];
      simpl; try (now intros [= _ <-]).
    destruct (upper_of cls) as [type|]; simpl; try (now intros [= _ <-]).
    destruct (Tes.new_Input _ _ _ _ _ _); simpl; [discriminate|].
    now intros [= _ <-].
Qed.

(** X21.  The entries of the listing are taken in order and the first
    that raises ends the loop: the exception is that entry's, the entries
    before it have their descriptors, and neither it nor any entry after it
    has one. *)
Theorem parse_listing_stops_at_first_failure w j listing : forall s e s',
  parse_listing w j listing s = Raise e s' ->
  exists pre item post sp ins,
    listing = (pre ++ item :: post)%list /\
    parse_listing w j pre s = Ok sp /\
    parse_listing_item w j item sp = Raise e s' /\
    st_inputs s' = (st_inputs s ++ ins)%list /\
    Forall2 (listing_descriptor w j) ins pre.
Proof.
  induction listing as [|x listing IH]; intros s e s';
    cbn [parse_listing]; [discriminate|].
  destruct (parse_listing_item w j x s) as [s1|e1 s1] eqn:Hitem; cbn [seq].
  - intros Hrest.
    destruct (IH _ _ _ Hrest)
      as (pre & item & post & sp & ins & Hl & Hpre & Hraise & Hins & Hall).
    destruct (parse_listing_item_shape _ _ _ _ _ Hitem) as (p & Hp & Hd & _).
    exists (x :: pre)%list, item, post, sp, (p :: ins)%list.
    repeat split.
    + now rewrite Hl.
    + cbn [parse_listing]. now rewrite Hitem.
    + exact Hraise.
    + now rewrite Hins, Hp, <- app_assoc.
    + now constructor.
  - intros [= <- <-].
    exists [], x, listing, s, []. repeat split.
    + exact Hitem.
    + rewrite (parse_listing_item_raise _ _ _ _ _ _ Hitem).
      now rewrite app_nil_r.
    + constructor.
Qed.

(** A listing whose second entry has neither [contents] nor a location. *)
Lemma parse_listing_stops_witness :
  exists pre item post sp ins,
    [Samples.staged "a.txt"; [("class", PStr "File")]; Samples.staged "c.txt"]
      = (pre ++ item :: post)%list /\
    parse_listing (Samples.service "COMPLETE") Samples.echo pre (mkStore [] [])
      = Ok sp /\
    parse_listing_item (Samples.service "COMPLETE") Samples.echo item sp =
      Raise (KeyError "location") (mkStore [Samples.a_txt_descriptor] []) /\
    st_inputs (mkStore [Samples.a_txt_descriptor] []) =
      (st_inputs (mkStore [] []) ++ ins)%list /\
    Forall2 (listing_descriptor (Samples.service "COMPLETE") Samples.echo)
      ins pre.
Proof.
  exact (parse_listing_stops_at_first_failure (Samples.service "COMPLETE")
           Samples.echo
           [Samples.staged "a.txt"; [("class", PStr "File")];
            Samples.staged "c.txt"]
           (mkStore [] []) (KeyError "location")
           (mkStore [Samples.a_txt_descriptor] []) eq_refl).
Defined.
